(** * Host-side hardware stubs and the minimal test runner

    A shallow embedding of [stubs/Arduino_stubs.cpp], [stubs/HTTPClient.cpp],
    the [MockHTTPClient] header and [gtest/gtest.h], followed by the
    properties of these definitions.

    Conventions.
    - A C++ [int] is a [Z]; the conversions the source performs
      ([static_cast<int>], the implicit [int] to [size_t] conversion) are
      written out as [to_int] and [to_size_t].
    - A [std::string] is a [list ascii] (a byte sequence that may contain
      NUL); a [const char*] argument is seen through [c_str], the bytes up
      to the first NUL.
    - Code that can throw returns a [result]; code that mutates process-wide
      state is a function from the state to the new state. *)

From Stdlib Require Import ZArith Lia List Ascii String DecimalString.
From Stdlib Require DecimalPos.
From stdpp Require Import gmap strings list.

Local Open Scope Z_scope.

(* ===================================================================== *)
(** * Part I: definitions                                                  *)
(* ===================================================================== *)

(** ** Machine integers *)

Definition INT_MIN : Z := - 2 ^ 31.
Definition INT_MAX : Z := 2 ^ 31 - 1.

(** [static_cast<int>(z)]: reduction into the 32-bit two's complement range. *)
Definition to_int (z : Z) : Z := (z + 2 ^ 31) mod 2 ^ 32 - 2 ^ 31.

(** Conversion of an [int] to the 64-bit unsigned [size_t]. *)
Definition to_size_t (z : Z) : Z := z mod 2 ^ 64.

(** [std::string::npos], the largest [size_t]. *)
Definition npos : Z := 2 ^ 64 - 1.

(** ** Exceptions and results *)

Inductive exn : Type :=
| out_of_range
| invalid_argument.

Inductive result (A : Type) : Type :=
| Ok (a : A)
| Throw (e : exn).

Arguments Ok {A} a.
Arguments Throw {A} e.

#[global] Instance result_ret : MRet result := fun _ a => Ok a.

#[global] Instance result_bind : MBind result := fun _ _ k r =>
  match r with
  | Ok a => k a
  | Throw e => Throw e
  end.

(** ** Byte strings *)

Definition std_string : Type := list ascii.

Definition code (c : ascii) : Z := Z.of_nat (nat_of_ascii c).

(** String literals of the source, as byte sequences. *)
Definition lit (s : string) : std_string := list_ascii_of_string s.

(** The view of a buffer through a [const char*]: the bytes before the
    first NUL. *)
Fixpoint c_str (s : std_string) : std_string :=
  match s with
  | [] => []
  | c :: r => if code c =? 0 then [] else c :: c_str r
  end.

(** [std::string::size], a [size_t]. *)
Definition size (s : std_string) : Z := Z.of_nat (List.length s).

(** [std::string::substr(pos, n)]: throws [out_of_range] when [pos > size()],
    otherwise the [min n (size - pos)] bytes from [pos] on. *)
Definition substr (s : std_string) (pos n : Z) : result std_string :=
  if pos >? size s then Throw out_of_range
  else Ok (take (Z.to_nat (Z.min n (size s - pos))) (drop (Z.to_nat pos) s)).

(** [prefix_b p s]: [s] starts with [p]. *)
Fixpoint prefix_b (p s : std_string) : bool :=
  match p, s with
  | [], _ => true
  | _ :: _, [] => false
  | a :: p', b :: s' => Ascii.eqb a b && prefix_b p' s'
  end.

(** Scan for the first suffix of [s] that starts with [needle]; [i] is the
    position of [s] in the whole string. *)
Fixpoint find_at (needle s : std_string) (i : nat) : option nat :=
  if prefix_b needle s then Some i
  else match s with
       | [] => None
       | _ :: r => find_at needle r (S i)
       end.

(** [std::string::find(needle, pos)]: the lowest position [>= pos] where
    [needle] occurs, [npos] when there is none (in particular when [pos]
    is past the end). *)
Definition find (s needle : std_string) (pos : Z) : Z :=
  if pos >? size s then npos
  else match find_at needle (drop (Z.to_nat pos) s) (Z.to_nat pos) with
       | Some p => Z.of_nat p
       | None => npos
       end.

(** [std::to_string(int)]: decimal rendering. *)
Definition to_string (val : Z) : std_string :=
  lit (NilZero.string_of_int (Z.to_int val)).

(** *** [std::stoi] *)

Definition isspace (c : ascii) : bool :=
  (code c =? 32) || ((9 <=? code c) && (code c <=? 13)).

Definition isdigit (c : ascii) : bool :=
  (48 <=? code c) && (code c <=? 57).

Definition digit_val (c : ascii) : Z := code c - 48.

Arguments code : simpl never.
Arguments isspace : simpl never.
Arguments isdigit : simpl never.
Arguments digit_val : simpl never.

Fixpoint skip_space (s : std_string) : std_string :=
  match s with
  | c :: r => if isspace c then skip_space r else s
  | [] => []
  end.

(** Consume the leading decimal digits of [s], accumulating into [acc];
    the second component counts the digits consumed. *)
Fixpoint parse_digits (s : std_string) (acc : Z) (n : nat) : Z * nat :=
  match s with
  | c :: r => if isdigit c then parse_digits r (10 * acc + digit_val c) (S n)
              else (acc, n)
  | [] => (acc, n)
  end.

(** [std::stoi(str)]: base-10 [strtol] on [str.c_str()]; leading white
    space is skipped, then an optional sign, then digits. No digit:
    [invalid_argument]. A value outside [int]: [out_of_range]. *)
Definition stoi (str : std_string) : result Z :=
  let s := skip_space (c_str str) in
  let '(neg, s) :=
    match s with
    | c :: r => if code c =? 45 then (true, r)
                else if code c =? 43 then (false, r)
                else (false, s)
    | [] => (false, s)
    end in
  let '(v, n) := parse_digits s 0 O in
  match n with
  | O => Throw invalid_argument
  | S _ =>
      let v := if neg then - v else v in
      if (INT_MIN <=? v) && (v <=? INT_MAX) then Ok v else Throw out_of_range
  end.

(** The shape of a text that [std::stoi] converts, as the specification
    words it (a leading integer): an optional sign, then decimal digits. *)
Inductive sign_prefix : Type := no_sign | plus_sign | minus_sign.

Definition sign_bytes (sg : sign_prefix) : std_string :=
  match sg with
  | no_sign => []
  | plus_sign => lit "+"
  | minus_sign => lit "-"
  end.

Definition apply_sign (sg : sign_prefix) (v : Z) : Z :=
  match sg with
  | minus_sign => - v
  | _ => v
  end.

Definition digits_value (ds : std_string) : Z :=
  fold_left (fun acc c => 10 * acc + digit_val c) ds 0.

Definition starts_with (p : ascii -> bool) (s : std_string) : bool :=
  match s with
  | c :: _ => p c
  | [] => false
  end.

(** What the specification says of a search: [needle] occurs in [s] at
    position [p]; and [r] is the answer for a search from [from], that is
    the position of the first occurrence at or after [from], or -1 when
    there is none. *)
Definition occurs_at (needle s : std_string) (p : Z) : Prop :=
  0 <= p /\ p + size needle <= size s
  /\ take (List.length needle) (drop (Z.to_nat p) s) = needle.

Definition first_occurrence_from (needle s : std_string) (from r : Z) : Prop :=
  (r = -1 /\ forall p, from <= p -> ~ occurs_at needle s p)
  \/ (from <= r /\ occurs_at needle s r
      /\ forall q, from <= q < r -> ~ occurs_at needle s q).

(** ** The text value type ([class String]) *)

Module Text.

Record String : Type := mkString { content : std_string }.

(** [String::String()] *)
Definition String_default : String := mkString [].

(** [String::String(const char* str) : content(str)] *)
Definition String_of_cstr (str : std_string) : String := mkString (c_str str).

(** [String::String(int val) : content(std::to_string(val))] *)
Definition String_of_int (val : Z) : String := mkString (to_string val).

(** [String::operator+=] on a [const char *], a [char] and a [String] *)
Definition append_cstr (this : String) (str : std_string) : String :=
  mkString (content this ++ c_str str).
Definition append_char (this : String) (ch : ascii) : String :=
  mkString (content this ++ [ch]).
Definition append (this other : String) : String :=
  mkString (content this ++ content other).

(** [String::c_str] *)
Definition String_c_str (this : String) : std_string := c_str (content this).

(** [String::length]: [static_cast<int>(content.length())] *)
Definition length (this : String) : Z := to_int (size (content this)).

(** [String::toInt]: [std::stoi(content)], any exception gives 0. *)
Definition toInt (this : String) : Z :=
  match stoi (content this) with
  | Ok v => v
  | Throw _ => 0
  end.

(** [String::equals(const String&)], [operator==] *)
Definition equals (this other : String) : bool :=
  bool_decide (content this = content other).

(** The conversion of a [size_t] search result to the [int] result. *)
Definition index_result (pos : Z) : Z :=
  if pos =? npos then -1 else to_int pos.

(** [String::indexOf(const char* str, int fromIndex)] *)
Definition indexOf_cstr (this : String) (str : std_string) (fromIndex : Z) : Z :=
  index_result (find (content this) (c_str str) (to_size_t fromIndex)).

(** [String::indexOf(char ch, int fromIndex)] *)
Definition indexOf_char (this : String) (ch : ascii) (fromIndex : Z) : Z :=
  index_result (find (content this) [ch] (to_size_t fromIndex)).

(** [String::indexOf(const String& str, int fromIndex)] *)
Definition indexOf (this str : String) (fromIndex : Z) : Z :=
  index_result (find (content this) (content str) (to_size_t fromIndex)).

(** [String::substring(int start, int end)] *)
Definition substring (this : String) (start end_ : Z) : result String :=
  let end_ := if end_ =? -1 then length this else end_ in
  let start := if start <? 0 then 0 else start in
  let end_ := if end_ >? length this then length this else end_ in
  if start >=? end_ then Ok (String_of_cstr (lit ""))
  else
    s ← substr (content this) (to_size_t start)
               (to_size_t (to_int (end_ - start)));
    mret (String_of_cstr s).

(** The clamping of the two arguments of [substring] as the
    specification words it: [start] is raised to 0; [end] becomes the
    length when it is the to-end marker -1 or exceeds the length. *)
Definition spec_clamp_start (start : Z) : Z := Z.max 0 start.
Definition spec_clamp_end (this : String) (end_ : Z) : Z :=
  if end_ =? -1 then length this
  else if end_ >? length this then length this
  else end_.

(** [String::operator[](int index)] *)
Definition index (this : String) (i : Z) : ascii :=
  if (i <? 0) || (i >=? length this) then zero
  else nth (Z.to_nat i) (content this) zero.

(** [String::operator+(const char* str)], [String::operator+(const String&)]:
    a copy of [this], appended to. *)
Definition plus_cstr (this : String) (str : std_string) : String :=
  let result := this in
  mkString (content result ++ c_str str).
Definition plus (this other : String) : String :=
  let result := this in
  mkString (content result ++ content other).

(** [operator+(const char* lhs, const String& rhs)] *)
Definition cstr_plus (lhs : std_string) (rhs : String) : String :=
  let result := String_of_cstr lhs in
  mkString (content result ++ content rhs).

(** [String::equals(const char* str)], [String::operator==(const char* str)]:
    [content == str] compares the whole content with the bytes of [str]
    before its NUL. *)
Definition equals_cstr (this : String) (str : std_string) : bool :=
  bool_decide (content this = c_str str).

End Text.

(** A byte sequence without a NUL byte. *)
Definition nul_free (s : std_string) : bool :=
  forallb (fun c => negb (code c =? 0)) s.

(** ** Pins, delays, the clock and the serial console *)

Definition endl : std_string := [ascii_of_nat 10].

(** Conversion of an [int] to [unsigned long]. *)
Definition to_ulong (z : Z) : Z := z mod 2 ^ 64.

Module Arduino.

(** Modelled from the spec: the declarations of [Arduino_stubs.h] are not
    part of the sources; a digital-write log entry is the record
    [{pin, value}] that [digitalWrite] pushes, a delay log entry the
    single [unsigned long] that [delay] pushes. *)
Record DigitalWriteCall : Type := mkDigitalWriteCall { pin : Z; value : Z }.
Record DelayCall : Type := mkDelayCall { ms : Z }.

(** Modelled from the spec: the data members of [SerialClass], with the
    names [SerialClass::reset] gives them; the counters are incremented
    exactly (their overflow is not modelled). *)
Record SerialClass : Type := mkSerial {
  println_calls : list std_string;
  print_calls : list std_string;
  outputBuffer : std_string;
  begin_baud : Z;
  begin_call_count : Z;
  println_call_count : Z;
  print_call_count : Z;
  last_baud_rate : Z
}.

(** The process-wide state of [Arduino_stubs.cpp]. [start_time] is the
    reading of the steady clock, in nanoseconds, taken at the last reset;
    [cout] is what has been written to the standard output. *)
Record World : Type := mkWorld {
  mock_digitalWrite_calls : list DigitalWriteCall;
  mock_delay_calls : list DelayCall;
  pin_states : gmap Z Z;
  Serial : SerialClass;
  start_time : Z;
  cout : std_string
}.

Definition with_Serial (f : SerialClass -> SerialClass) (w : World) : World :=
  mkWorld (mock_digitalWrite_calls w) (mock_delay_calls w) (pin_states w)
          (f (Serial w)) (start_time w) (cout w).

Definition with_cout (f : std_string -> std_string) (w : World) : World :=
  mkWorld (mock_digitalWrite_calls w) (mock_delay_calls w) (pin_states w)
          (Serial w) (start_time w) (f (cout w)).

(** [SerialClass::reset] *)
Definition Serial_reset (s : SerialClass) : SerialClass :=
  mkSerial [] [] [] 0 0 0 0 0.

(** [SerialClass::begin] *)
Definition Serial_begin (baud : Z) (s : SerialClass) : SerialClass :=
  mkSerial (println_calls s) (print_calls s) (outputBuffer s)
           baud (begin_call_count s + 1)
           (println_call_count s) (print_call_count s) baud.

(** The three statements shared by [print(const char* str)] and
    [print(const String&)], on the bytes [str] that each of them renders. *)
Definition Serial_print_bytes (str : std_string) (s : SerialClass) : SerialClass :=
  mkSerial (println_calls s) (print_calls s ++ [str]) (outputBuffer s ++ str)
           (begin_baud s) (begin_call_count s)
           (println_call_count s) (print_call_count s + 1) (last_baud_rate s).

Definition Serial_println_bytes (str : std_string) (s : SerialClass) : SerialClass :=
  mkSerial (println_calls s ++ [str]) (print_calls s)
           ((outputBuffer s ++ str) ++ endl)
           (begin_baud s) (begin_call_count s)
           (println_call_count s + 1) (print_call_count s) (last_baud_rate s).

(** [SerialClass::print(const char* str)], [SerialClass::println(const char* str)] *)
Definition print_cstr (str : std_string) (w : World) : World :=
  with_Serial (Serial_print_bytes (c_str str)) w.
Definition println_cstr (str : std_string) (w : World) : World :=
  with_Serial (Serial_println_bytes (c_str str)) w.

(** [SerialClass::print(const String&)], [SerialClass::println(const String&)] *)
Definition print_String (str : Text.String) (w : World) : World :=
  with_Serial (Serial_print_bytes (Text.content str)) w.
Definition println_String (str : Text.String) (w : World) : World :=
  with_Serial (Serial_println_bytes (Text.content str)) w.

(** [SerialClass::print(int)]: the rendering is pushed on [print_calls]
    and written to [std::cout]; nothing else is touched. *)
Definition print_int (val : Z) (w : World) : World :=
  with_cout (fun o => o ++ to_string val)
    (with_Serial (fun s =>
       mkSerial (println_calls s) (print_calls s ++ [to_string val])
                (outputBuffer s) (begin_baud s) (begin_call_count s)
                (println_call_count s) (print_call_count s)
                (last_baud_rate s)) w).

(** [SerialClass::println(int)] *)
Definition println_int (val : Z) (w : World) : World :=
  with_cout (fun o => (o ++ to_string val) ++ endl)
    (with_Serial (fun s =>
       mkSerial (println_calls s ++ [to_string val]) (print_calls s)
                (outputBuffer s) (begin_baud s) (begin_call_count s)
                (println_call_count s) (print_call_count s)
                (last_baud_rate s)) w).

(** [reset_arduino_stubs]; [now] is the reading of the steady clock. *)
Definition reset_arduino_stubs (now : Z) (w : World) : World :=
  mkWorld [] [] ∅ (Serial_reset (Serial w)) now (cout w).

(** [digitalWrite] *)
Definition digitalWrite (pin value : Z) (w : World) : World :=
  mkWorld (mock_digitalWrite_calls w ++ [mkDigitalWriteCall pin value])
          (mock_delay_calls w) (<[pin := value]> (pin_states w))
          (Serial w) (start_time w) (cout w).

(** [digitalRead]: [pin_states[pin]] creates the entry, with value 0,
    when the pin has none. *)
Definition digitalRead (pin : Z) (w : World) : Z * World :=
  match pin_states w !! pin with
  | Some v => (v, w)
  | None =>
      (0, mkWorld (mock_digitalWrite_calls w) (mock_delay_calls w)
                  (<[pin := 0]> (pin_states w))
                  (Serial w) (start_time w) (cout w))
  end.

(** [pinMode] *)
Definition pinMode (pin mode : Z) (w : World) : World := w.

(** [delay] *)
Definition delay (ms : Z) (w : World) : World :=
  mkWorld (mock_digitalWrite_calls w)
          (mock_delay_calls w ++ [mkDelayCall (to_ulong ms)])
          (pin_states w) (Serial w) (start_time w) (cout w).

(** [millis]; [now] is the reading of the steady clock. *)
Definition millis (now : Z) (w : World) : Z :=
  to_ulong (Z.quot (now - start_time w) 1000000).

(** One call into the stubs, and the run of a sequence of calls. *)
Inductive call : Type :=
| call_reset (now : Z)
| call_digitalWrite (pin value : Z)
| call_digitalRead (pin : Z)
| call_pinMode (pin mode : Z)
| call_delay (ms : Z)
| call_print (str : Text.String)
| call_println (str : Text.String)
| call_print_int (val : Z)
| call_println_int (val : Z).

Definition step (c : call) (w : World) : World :=
  match c with
  | call_reset now => reset_arduino_stubs now w
  | call_digitalWrite p v => digitalWrite p v w
  | call_digitalRead p => snd (digitalRead p w)
  | call_pinMode p m => pinMode p m w
  | call_delay ms => delay ms w
  | call_print s => print_String s w
  | call_println s => println_String s w
  | call_print_int v => print_int v w
  | call_println_int v => println_int v w
  end.

Definition run (cs : list call) (w : World) : World :=
  fold_left (fun w c => step c w) cs w.

(** What the specification says of a sequence of calls: the calls after
    the last reset, the writes among them, and the last value written to
    a pin. *)
Definition is_reset (c : call) : bool :=
  match c with call_reset _ => true | _ => false end.

Fixpoint since_reset (cs : list call) : list call :=
  match cs with
  | [] => []
  | c :: r =>
      if existsb is_reset r then since_reset r
      else if is_reset c then r else c :: r
  end.

Fixpoint writes (cs : list call) : list DigitalWriteCall :=
  match cs with
  | [] => []
  | call_digitalWrite p v :: r => mkDigitalWriteCall p v :: writes r
  | _ :: r => writes r
  end.

Fixpoint last_written (p : Z) (cs : list call) (d : Z) : Z :=
  match cs with
  | [] => d
  | call_digitalWrite q v :: r =>
      last_written p r (if bool_decide (q = p) then v else d)
  | _ :: r => last_written p r d
  end.

(** The three effects that the specification asks of a write of the
    rendered text [str]: *)
Definition logged_buffered_counted (str : std_string) (w w' : World) : Prop :=
  print_calls (Serial w') = print_calls (Serial w) ++ [str]
  /\ outputBuffer (Serial w') = outputBuffer (Serial w) ++ str
  /\ print_call_count (Serial w') = print_call_count (Serial w) + 1.

(** and of a line write: *)
Definition line_logged_buffered_counted (str : std_string) (w w' : World) : Prop :=
  println_calls (Serial w') = println_calls (Serial w) ++ [str]
  /\ outputBuffer (Serial w') = (outputBuffer (Serial w) ++ str) ++ endl
  /\ println_call_count (Serial w') = println_call_count (Serial w) + 1.

(** The level a pin reads, without the side effect of the read. *)
Definition level (w : World) (p : Z) : Z := default 0 (pin_states w !! p).

Definition writes_to (p : Z) (c : call) : bool :=
  match c with
  | call_digitalWrite q _ => bool_decide (q = p)
  | _ => false
  end.

(** Read off a sequence of calls: the delays requested, the fragments
    that the [print] and the [println] calls render, the text that the
    text-form calls put out, and the numbers of text-form and of
    integer-form calls. *)
Fixpoint requested_delays (cs : list call) : list Z :=
  match cs with
  | [] => []
  | call_delay m :: r => m :: requested_delays r
  | _ :: r => requested_delays r
  end.

Fixpoint print_log (cs : list call) : list std_string :=
  match cs with
  | [] => []
  | call_print s :: r => Text.content s :: print_log r
  | call_print_int v :: r => to_string v :: print_log r
  | _ :: r => print_log r
  end.

Fixpoint println_log (cs : list call) : list std_string :=
  match cs with
  | [] => []
  | call_println s :: r => Text.content s :: println_log r
  | call_println_int v :: r => to_string v :: println_log r
  | _ :: r => println_log r
  end.

Fixpoint transcript (cs : list call) : std_string :=
  match cs with
  | [] => []
  | call_print s :: r => Text.content s ++ transcript r
  | call_println s :: r => (Text.content s ++ endl) ++ transcript r
  | _ :: r => transcript r
  end.

Definition count_calls (f : call -> bool) (cs : list call) : Z :=
  Z.of_nat (List.length (List.filter f cs)).

Definition is_print (c : call) : bool :=
  match c with call_print _ => true | _ => false end.
Definition is_println (c : call) : bool :=
  match c with call_println _ => true | _ => false end.
Definition is_print_int (c : call) : bool :=
  match c with call_print_int _ => true | _ => false end.
Definition is_println_int (c : call) : bool :=
  match c with call_println_int _ => true | _ => false end.

(** [Serial.begin] called once for each baud rate of a list, in order. *)
Definition begin_all (bauds : list Z) (s : SerialClass) : SerialClass :=
  fold_left (fun s baud => Serial_begin baud s) bauds s.

End Arduino.

(** ** The network client *)

Module HTTP.

(** Modelled from the spec: the data members of [HTTPClient] are declared
    in [Arduino_stubs.h], which is not part of the sources; they carry
    the names [HTTPClient::reset] gives them. *)
Record HTTPClient : Type := mkHTTPClient {
  begin_call_count : Z;
  begin_url : std_string;
  GET_return : Z;
  getString_return : std_string
}.

(** Modelled from the spec: the configuration of the response
    ([setResponseCode], [setResponseBody]), which in
    [Arduino_stubs.cpp] is an assignment to [GET_return] and to
    [getString_return]. *)
Definition setResponseCode (code : Z) (h : HTTPClient) : HTTPClient :=
  mkHTTPClient (begin_call_count h) (begin_url h) code (getString_return h).
Definition setResponseBody (body : std_string) (h : HTTPClient) : HTTPClient :=
  mkHTTPClient (begin_call_count h) (begin_url h) (GET_return h) body.

(** [HTTPClient::setTimeout] *)
Definition setTimeout (ms : Z) (h : HTTPClient) : HTTPClient := h.

(** [HTTPClient::begin] *)
Definition begin (url : Text.String) (h : HTTPClient) : HTTPClient :=
  mkHTTPClient (begin_call_count h + 1) (Text.content url)
               (GET_return h) (getString_return h).

(** [HTTPClient::GET] *)
Definition GET (h : HTTPClient) : Z := GET_return h.

(** [HTTPClient::getString]: [String(getString_return.c_str())] *)
Definition getString (h : HTTPClient) : Text.String :=
  Text.String_of_cstr (c_str (getString_return h)).

(** [HTTPClient::end] *)
Definition end_ (h : HTTPClient) : HTTPClient := h.

(** [HTTPClient::reset] *)
Definition reset (h : HTTPClient) : HTTPClient :=
  mkHTTPClient 0 (lit "") 200 (lit "").

(** [class MockHTTPClient]: the two private members and their in-class
    initialisers. *)
Record MockHTTPClient : Type := mkMock {
  mock_response_code : Z;
  mock_response_body : Text.String
}.

Definition MockHTTPClient_new : MockHTTPClient :=
  mkMock 200 (Text.String_of_cstr (lit "")).

Definition Mock_setResponseCode (code : Z) (m : MockHTTPClient) : MockHTTPClient :=
  mkMock code (mock_response_body m).
Definition Mock_setResponseString (str : Text.String) (m : MockHTTPClient)
  : MockHTTPClient :=
  mkMock (mock_response_code m) str.
Definition Mock_GET (m : MockHTTPClient) : Z := mock_response_code m.
Definition Mock_getString (m : MockHTTPClient) : Text.String :=
  mock_response_body m.
Definition Mock_begin (url : Text.String) (m : MockHTTPClient) : MockHTTPClient := m.
Definition Mock_setTimeout (timeout : Z) (m : MockHTTPClient) : MockHTTPClient := m.
Definition Mock_end (m : MockHTTPClient) : MockHTTPClient := m.

(** [stubs/HTTPClient.cpp]: the variant whose response lives in three
    static members, with their initialisers. *)
Record Statics : Type := mkStatics {
  static_response_code : Z;
  static_response_body : Text.String;
  last_url : Text.String
}.

Definition Statics_initial : Statics :=
  mkStatics 200 (Text.String_of_cstr (lit "")) (Text.String_of_cstr (lit "")).

Definition Statics_begin (url : Text.String) (s : Statics) : Statics :=
  mkStatics (static_response_code s) (static_response_body s) url.
Definition Statics_GET (s : Statics) : Z := static_response_code s.
Definition Statics_getString (s : Statics) : Text.String := static_response_body s.

(** One call on an [HTTPClient] of [Arduino_stubs.cpp], and the run of a
    sequence of calls. *)
Inductive http_call : Type :=
| hc_reset
| hc_setTimeout (ms : Z)
| hc_begin (url : Text.String)
| hc_GET
| hc_getString
| hc_end.

Definition http_step (c : http_call) (h : HTTPClient) : HTTPClient :=
  match c with
  | hc_reset => reset h
  | hc_setTimeout ms => setTimeout ms h
  | hc_begin url => begin url h
  | hc_GET => h
  | hc_getString => h
  | hc_end => end_ h
  end.

Definition http_run (cs : list http_call) (h : HTTPClient) : HTTPClient :=
  fold_left (fun h c => http_step c h) cs h.

(** Read off a sequence of calls: whether a call is a reset, the calls
    after the last reset, and the addresses that [begin] was given. *)
Definition is_http_reset (c : http_call) : bool :=
  match c with hc_reset => true | _ => false end.

Fixpoint http_since_reset (cs : list http_call) : list http_call :=
  match cs with
  | [] => []
  | c :: r =>
      if existsb is_http_reset r then http_since_reset r
      else if is_http_reset c then r else c :: r
  end.

Fixpoint begun_urls (cs : list http_call) : list std_string :=
  match cs with
  | [] => []
  | hc_begin url :: r => Text.content url :: begun_urls r
  | _ :: r => begun_urls r
  end.

End HTTP.

(** ** The flash filesystem *)

Module SPIFFS.

(** A [File] has no data member that the source reads or writes. *)
Inductive File : Type := mkFile.

(** The process-wide state the filesystem stubs touch: the function-local
    [static int count] of [File::available], zero when the process
    starts, and the standard output. The counter is incremented exactly:
    the signed overflow after [INT_MAX] calls is undefined behaviour and
    is not modelled. *)
Record State : Type := mkState {
  count : Z;
  cout : std_string
}.

Definition initial : State := mkState 0 [].

Definition show_bool (b : bool) : std_string := if b then lit "1" else lit "0".

(** [SPIFFSClass::begin(bool)], [SPIFFSClass::begin()] *)
Definition begin_format (format : bool) (st : State) : bool * State :=
  (true, mkState (count st)
           ((((cout st ++ lit "SPIFFS.begin(") ++ show_bool format) ++ lit ")") ++ endl)).
Definition begin (st : State) : bool * State := begin_format false st.

(** [SPIFFSClass::open] *)
Definition open (path mode : std_string) (st : State) : File * State :=
  (mkFile,
   mkState (count st)
     ((((((cout st ++ lit "SPIFFS.open(") ++ c_str path) ++ lit ", ")
         ++ c_str mode) ++ lit ")") ++ endl)).

(** [File::available]: [return count++ < 10;] *)
Definition available (f : File) (st : State) : bool * State :=
  (count st <? 10, mkState (count st + 1) (cout st)).

(** [File::read] *)
Definition read (f : File) : ascii := "a"%char.

(** [File::close] *)
Definition close (f : File) (st : State) : State :=
  mkState (count st) ((cout st ++ lit "File.close()") ++ endl).

(** [File::operator bool] *)
Definition to_bool (f : File) : bool := true.

(** The loop of [File::readStringUntil]; [fuel] bounds its iterations. *)
Fixpoint readStringUntil_loop (fuel : nat) (f : File) (terminator : ascii)
    (result : std_string) (st : State) : std_string * State :=
  match fuel with
  | O => (result, st)
  | S fuel' =>
      let '(a, st') := available f st in
      if a && negb (Ascii.eqb (read f) terminator)
      then readStringUntil_loop fuel' f terminator (result ++ [read f]) st'
      else (result, st')
  end.

(** [File::readStringUntil]: the loop runs at most [10 - count] times
    before [available] answers false, which the fuel given here covers. *)
Definition readStringUntil (f : File) (terminator : ascii) (st : State)
  : Text.String * State :=
  let '(r, st') :=
    readStringUntil_loop (S (Z.to_nat (10 - count st))) f terminator [] st in
  (Text.String_of_cstr (c_str r), st').

(** The answers of successive calls of [available], one call on each
    handle of the list, in order. *)
Fixpoint available_calls (handles : list File) (st : State) : list bool * State :=
  match handles with
  | [] => ([], st)
  | f :: r =>
      let '(a, st1) := available f st in
      let '(l, st2) := available_calls r st1 in
      (a :: l, st2)
  end.

(** [File::print]: the content goes to the standard output and the
    length is returned as a [size_t]. *)
Definition print (f : File) (str : Text.String) (st : State) : Z * State :=
  (to_size_t (Text.length str), mkState (count st) (cout st ++ Text.content str)).

(** One call into the filesystem stubs, on some handle, and the run of a
    sequence of calls. *)
Inductive fs_call : Type :=
| fs_begin (format : bool)
| fs_open (path mode : std_string)
| fs_available (f : File)
| fs_read (f : File)
| fs_close (f : File)
| fs_to_bool (f : File)
| fs_readStringUntil (f : File) (terminator : ascii)
| fs_print (f : File) (str : Text.String).

Definition fs_step (c : fs_call) (st : State) : State :=
  match c with
  | fs_begin format => snd (begin_format format st)
  | fs_open path mode => snd (open path mode st)
  | fs_available f => snd (available f st)
  | fs_read f => st
  | fs_close f => close f st
  | fs_to_bool f => st
  | fs_readStringUntil f t => snd (readStringUntil f t st)
  | fs_print f str => snd (print f str st)
  end.

Definition fs_run (cs : list fs_call) (st : State) : State :=
  fold_left (fun st c => fs_step c st) cs st.

End SPIFFS.

(** ** The test registry and the runner *)

Module GTest.

(** What can leave a test body other than a normal return: an exception
    derived from [std::exception], carrying its [what()], or any other
    thrown value. *)
Inductive exception : Type :=
| std_exception (what : std_string)
| other_exception.

Section Bodies.

(** The state that test bodies and fixture hooks read and write. *)
Context {W : Type}.

(** The ways a piece of test code ends, each with the state it leaves:
    it returns, it throws, or it terminates the process ([abort()],
    which is what a failed [assert] calls). *)
Inductive outcome : Type :=
| Returned (w : W)
| Thrown (e : exception) (w : W)
| Aborted (w : W).

(** A [std::function<void()>]. *)
Definition body : Type := W -> outcome.

(** [a; b]: sequencing of two statements. *)
Definition seq_body (a b : body) : body := fun w =>
  match a w with
  | Returned w' => b w'
  | Thrown e w' => Thrown e w'
  | Aborted w' => Aborted w'
  end.


(** [throw e;] *)
Definition throw (e : exception) : body := fun w => Thrown e w.

(** A statement that updates the state and goes on. *)
Definition effect (f : W -> W) : body := fun w => Returned (f w).

(** The [assert] macro of [<cassert>]: nothing at all when [NDEBUG] is
    defined, otherwise [abort()] when the condition is false. *)
Definition assert_ (NDEBUG : bool) (cond : bool) : body := fun w =>
  if NDEBUG then Returned w
  else if cond then Returned w else Aborted w.

(** The assertion macros. *)
Definition ASSERT_EQ {A} `{EqDecision A} (NDEBUG : bool) (a b : A) : body :=
  assert_ NDEBUG (bool_decide (a = b)).
Definition ASSERT_NE {A} `{EqDecision A} (NDEBUG : bool) (a b : A) : body :=
  assert_ NDEBUG (negb (bool_decide (a = b))).
Definition ASSERT_TRUE (NDEBUG : bool) (a : bool) : body := assert_ NDEBUG a.
Definition ASSERT_FALSE (NDEBUG : bool) (a : bool) : body :=
  assert_ NDEBUG (negb a).
Definition ASSERT_GT (NDEBUG : bool) (a b : Z) : body := assert_ NDEBUG (a >? b).
Definition ASSERT_GE (NDEBUG : bool) (a b : Z) : body := assert_ NDEBUG (a >=? b).
Definition ASSERT_LT (NDEBUG : bool) (a b : Z) : body := assert_ NDEBUG (a <? b).
Definition ASSERT_LE (NDEBUG : bool) (a b : Z) : body := assert_ NDEBUG (a <=? b).

(** [struct TestInfo], [class TestRegistry] *)
Record TestInfo : Type := mkTestInfo { name : std_string; func : body }.
Record TestRegistry : Type := mkRegistry { tests_ : list TestInfo }.

(** [TestRegistry::instance]: the registry is created, empty, on first
    use. *)
Definition instance (instance_ : option TestRegistry) : TestRegistry :=
  match instance_ with
  | Some r => r
  | None => mkRegistry []
  end.

(** [TestRegistry::register_test] *)
Definition register_test (name : std_string) (func : body)
    (r : TestRegistry) : TestRegistry :=
  mkRegistry (tests_ r ++ [mkTestInfo name func]).

(** [class testing::Test]: the two hooks a fixture may override. *)
Record Fixture : Type := mkFixture { SetUp : body; TearDown : body }.


(** The function that [TEST_F] registers:
    [test.SetUp(); test.TestBody(); test.TearDown();] *)
Definition TestFunc (fixture : Fixture) (TestBody : body) : body :=
  seq_body (SetUp fixture) (seq_body TestBody (TearDown fixture)).

(** The [TEST] and [TEST_F] macros: registration under
    ["suite.name"]. *)
Definition TEST (suite name : string) (TestBody : body)
    (r : TestRegistry) : TestRegistry :=
  register_test ((lit suite ++ lit ".") ++ lit name) TestBody r.

Definition TEST_F (fixture : Fixture) (fixture_name name : string)
    (TestBody : body) (r : TestRegistry) : TestRegistry :=
  register_test ((lit fixture_name ++ lit ".") ++ lit name)
                (TestFunc fixture TestBody) r.

(** One call of a registered body, as an observer of the run sees it:
    the position of the entry in the catalog, the state the body
    started in and how it ended. *)
Record invocation : Type := mkInvocation {
  position : nat;
  started_in : W;
  ended : outcome
}.

(** The state of [run_all_tests] inside its loop. [calls] is not a
    variable of the source: it records the invocations made so far.
    [cout] holds the lines that [run_all_tests] itself writes; bodies
    that print are followed in [run_loop_io] below, where the stream is
    part of the state. *)
Record run_state : Type := mkRun {
  failures : Z;
  cout : std_string;
  calls : list invocation;
  world : W
}.

(** How [run_all_tests] ends: it returns [failures], or the process
    was terminated inside a body. *)
Inductive run_result : Type :=
| Finished (st : run_state)
| Terminated (st : run_state).

Definition pass_line (t : TestInfo) : std_string :=
  (lit "[ PASS ] " ++ name t) ++ endl.

Definition fail_line (t : TestInfo) (e : exception) : std_string :=
  (((lit "[ FAIL ] " ++ name t) ++ lit ": ") ++
   match e with
   | std_exception what => c_str what
   | other_exception => lit "Unknown exception"
   end) ++ endl.

(** The body of the [for] loop over [tests_], from entry [i] on. *)
Fixpoint run_loop (ts : list TestInfo) (i : nat) (st : run_state) : run_result :=
  match ts with
  | [] => Finished st
  | t :: ts' =>
      let r := func t (world st) in
      let calls' := calls st ++ [mkInvocation i (world st) r] in
      match r with
      | Returned w =>
          run_loop ts' (S i)
            (mkRun (failures st) (cout st ++ pass_line t) calls' w)
      | Thrown e w =>
          run_loop ts' (S i)
            (mkRun (failures st + 1) (cout st ++ fail_line t e) calls' w)
      | Aborted w =>
          Terminated (mkRun (failures st) (cout st) calls' w)
      end
  end.

(** [TestRegistry::run_all_tests], [RUN_ALL_TESTS] *)
Definition run_all_tests (r : TestRegistry) (out : std_string) (w : W)
  : run_result :=
  run_loop (tests_ r) 0 (mkRun 0 out [] w).

(** What an observer reads off an outcome. *)
Definition state_after (o : outcome) : W :=
  match o with
  | Returned w | Thrown _ w | Aborted w => w
  end.

Definition is_thrown (o : outcome) : bool :=
  match o with
  | Thrown _ _ => true
  | _ => false
  end.

Definition never_aborts (f : body) : Prop :=
  forall w w', f w <> Aborted w'.

(** What the specification says of a run: [in_order i w ts cs] when
    [cs] holds exactly one invocation for each entry of [ts], in the
    order of [ts], the first at position [i] and started in [w], each
    next one started in the state the previous one left. *)
Inductive in_order : nat -> W -> list TestInfo -> list invocation -> Prop :=
| in_order_nil (i : nat) (w : W) : in_order i w [] []
| in_order_cons (i : nat) (w : W) (t : TestInfo) (ts : list TestInfo)
    (cs : list invocation) :
    in_order (S i) (state_after (func t w)) ts cs ->
    in_order i w (t :: ts) (mkInvocation i w (func t w) :: cs).

(** The state in which the entries of [ts] leave [w] when each is run
    to its end. *)
Definition state_after_all (ts : list TestInfo) (w : W) : W :=
  fold_left (fun w t => state_after (func t w)) ts w.

(** The number of invocations that ended in a throw. *)
Definition thrown_count (cs : list invocation) : Z :=
  Z.of_nat (List.length (List.filter (fun c => is_thrown (ended c)) cs)).

Definition is_aborted (o : outcome) : bool :=
  match o with
  | Aborted _ => true
  | _ => false
  end.

(** A run of the entries [ts] from the state [w] in which no body
    terminates the process: no entry does in the state in which the run
    invokes it, that is the state the entries before it have left. *)
Fixpoint clear_run (ts : list TestInfo) (w : W) : bool :=
  match ts with
  | [] => true
  | t :: ts' =>
      negb (is_aborted (func t w)) && clear_run ts' (state_after (func t w))
  end.

(** The registrations of a program, one [register_test] for each test in
    the order in which the registrar objects are constructed. *)
Definition register_all (l : list TestInfo) (r : TestRegistry) : TestRegistry :=
  fold_left (fun r t => register_test (name t) (func t) r) l r.

End Bodies.

Arguments outcome W : clear implicits.
Arguments body W : clear implicits.
Arguments TestInfo W : clear implicits.
Arguments TestRegistry W : clear implicits.
Arguments Fixture W : clear implicits.
Arguments invocation W : clear implicits.
Arguments run_state W : clear implicits.
Arguments run_result W : clear implicits.

(** *** The runner and the bodies on one standard output

    [run_all_tests] writes its lines to [std::cout], the stream that the
    test bodies (and the stubs they call) write to. Here the stream is
    part of the state that the bodies act on. *)

Section SharedOutput.

Context {U : Type}.

(** The state of the program: the state proper, and the characters
    written to [std::cout] so far. *)
Definition io : Type := U * std_string.

(** [std::cout << s] *)
Definition put (s : std_string) (w : io) : io := (fst w, snd w ++ s).

Record run_state_io : Type := mkRunIO {
  failures_io : Z;
  calls_io : list (invocation io);
  world_io : io
}.

Inductive run_result_io : Type :=
| Finished_io (st : run_state_io)
| Terminated_io (st : run_state_io).

(** The body of the [for] loop over [tests_], from entry [i] on. *)
Fixpoint run_loop_io (ts : list (TestInfo io)) (i : nat) (st : run_state_io)
  : run_result_io :=
  match ts with
  | [] => Finished_io st
  | t :: ts' =>
      let r := func t (world_io st) in
      let calls' := calls_io st ++ [mkInvocation i (world_io st) r] in
      match r with
      | Returned w =>
          run_loop_io ts' (S i)
            (mkRunIO (failures_io st) calls' (put (pass_line t) w))
      | Thrown e w =>
          run_loop_io ts' (S i)
            (mkRunIO (failures_io st + 1) calls' (put (fail_line t e) w))
      | Aborted w =>
          Terminated_io (mkRunIO (failures_io st) calls' w)
      end
  end.

(** [TestRegistry::run_all_tests] *)
Definition run_all_tests_io (r : TestRegistry io) (w : io) : run_result_io :=
  run_loop_io (tests_ r) 0 (mkRunIO 0 [] w).

(** What the runner is to print for a test whose body ended in [o]:
    the pass line with the name, the fail line with the name and the
    message, nothing when the body terminated the process. *)
Definition line_of (t : TestInfo io) (o : outcome io) : std_string :=
  match o with
  | Returned _ => lit "[ PASS ] " ++ name t ++ endl
  | Thrown (std_exception what) _ =>
      lit "[ FAIL ] " ++ name t ++ lit ": " ++ c_str what ++ endl
  | Thrown other_exception _ =>
      lit "[ FAIL ] " ++ name t ++ lit ": Unknown exception" ++ endl
  | Aborted _ => []
  end.

(** The state in which the body after [t] is to start: the state the
    body of [t] left, with the line of [t] appended to the output. *)
Definition after_report (t : TestInfo io) (w : io) : io :=
  put (line_of t (func t w)) (state_after (func t w)).

(** A run in which no body terminates the process, each body being
    invoked in the state [after_report] gives. *)
Fixpoint clear_run_io (ts : list (TestInfo io)) (w : io) : bool :=
  match ts with
  | [] => true
  | t :: ts' => negb (is_aborted (func t w)) && clear_run_io ts' (after_report t w)
  end.

(** [reported i w ts cs w']: [cs] holds one invocation for each entry of
    [ts], in order, the first at position [i] and started in [w], each
    next one started in the state the previous one left with the line of
    that one appended to the output and nothing else changed; [w'] is
    the state after the last line. *)
Inductive reported : nat -> io -> list (TestInfo io) -> list (invocation io)
                     -> io -> Prop :=
| reported_nil (i : nat) (w : io) : reported i w [] [] w
| reported_cons (i : nat) (w w' : io) (t : TestInfo io) (ts : list (TestInfo io))
    (cs : list (invocation io)) :
    reported (S i) (after_report t w) ts cs w' ->
    reported i w (t :: ts) (mkInvocation i w (func t w) :: cs) w'.

(** An invocation whose body wrote nothing to the standard output. *)
Definition quiet (c : invocation io) : Prop :=
  snd (state_after (ended c)) = snd (started_in c).

(** The lines of the entries [ts], given how their invocations ended. *)
Fixpoint lines_of (ts : list (TestInfo io)) (cs : list (invocation io))
  : std_string :=
  match ts, cs with
  | t :: ts', c :: cs' => line_of t (ended c) ++ lines_of ts' cs'
  | _, _ => []
  end.

End SharedOutput.

Arguments io U : clear implicits.
Arguments run_state_io U : clear implicits.
Arguments run_result_io U : clear implicits.

End GTest.

(** ** Sample inputs *)

Module Samples.

Import Arduino.

Definition sample_world : World :=
  mkWorld [mkDigitalWriteCall 1 1] [] (<[1 := 1]> ∅)
          (mkSerial [] [] [] 0 0 0 0 0) 0 [].

Definition sample_calls : list call :=
  [call_digitalWrite 13 1; call_reset 5; call_digitalWrite 2 1;
   call_digitalRead 7; call_digitalWrite 13 1; call_pinMode 2 1;
   call_digitalWrite 13 0; call_delay 10; call_digitalWrite 2 0].

(** The state of the sample tests: the events that have happened. *)
Inductive event : Type :=
| ev_setup
| ev_body (n : nat)
| ev_teardown.

Definition log (e : event) : GTest.body (list event) :=
  GTest.effect (fun w => w ++ [e]).

(** [TEST(Suite, Fails) { ...; ASSERT_EQ(1, 2); ... }] and
    [TEST(Suite, Passes) { ... }], registered in this order. *)
Definition failing_then_passing (NDEBUG : bool)
  : GTest.TestRegistry (list event) :=
  GTest.TEST "Suite" "Passes" (log (ev_body 2))
    (GTest.TEST "Suite" "Fails"
       (GTest.seq_body (log (ev_body 1))
          (GTest.seq_body (GTest.ASSERT_EQ NDEBUG 1 2) (log (ev_body 11))))
       (GTest.mkRegistry [])).

(** A test that throws, then one that returns. *)
Definition throwing_then_passing : GTest.TestRegistry (list event) :=
  GTest.TEST "Suite" "Passes" (log (ev_body 2))
    (GTest.TEST "Suite" "Throws"
       (GTest.seq_body (log (ev_body 1))
                       (GTest.throw (GTest.std_exception (lit "boom"))))
       (GTest.mkRegistry [])).

(** A fixture whose hooks leave a trace. *)
Definition Traced : GTest.Fixture (list event) :=
  GTest.mkFixture (log ev_setup) (log ev_teardown).

(** [TEST_F(Traced, Fails) { ...; ASSERT_TRUE(false); }] followed by
    [TEST(Suite, Passes)]. *)
Definition fixture_assert_fails (NDEBUG : bool)
  : GTest.TestRegistry (list event) :=
  GTest.TEST "Suite" "Passes" (log (ev_body 2))
    (GTest.TEST_F Traced "Traced" "Fails"
       (GTest.seq_body (log (ev_body 1)) (GTest.ASSERT_TRUE NDEBUG false))
       (GTest.mkRegistry [])).

(** [TEST_F(Traced, Throws) { ...; throw std::runtime_error("boom"); }]
    followed by [TEST(Suite, Passes)]. *)
Definition fixture_throws : GTest.TestRegistry (list event) :=
  GTest.TEST "Suite" "Passes" (log (ev_body 2))
    (GTest.TEST_F Traced "Traced" "Throws"
       (GTest.seq_body (log (ev_body 1))
                       (GTest.throw (GTest.std_exception (lit "boom"))))
       (GTest.mkRegistry [])).

(** Two bodies registered under one name by two calls of
    [register_test], the first of them with a failing [ASSERT_TRUE]. *)
Definition same_name_first_fails (NDEBUG : bool)
  : GTest.TestRegistry (list event) :=
  GTest.register_test (lit "Suite.Case") (log (ev_body 2))
    (GTest.register_test (lit "Suite.Case")
       (GTest.seq_body (log (ev_body 1)) (GTest.ASSERT_TRUE NDEBUG false))
       (GTest.mkRegistry [])).

(** Two bodies registered under one name after an earlier test, all of
    them returning. *)
Definition same_name_both_return : GTest.TestRegistry (list event) :=
  GTest.register_test (lit "Suite.Case") (log (ev_body 2))
    (GTest.register_test (lit "Suite.Case") (log (ev_body 1))
       (GTest.TEST "Suite" "First" (log (ev_body 0)) (GTest.mkRegistry []))).

(** A test whose assertion depends on the state: it holds when exactly
    one event has happened, as is the case after [Suite.First]. *)
Definition guarded_tests : list (GTest.TestInfo (list event)) :=
  [GTest.mkTestInfo (lit "Suite.First") (log (ev_body 1));
   GTest.mkTestInfo (lit "Suite.Guarded")
     (fun w => GTest.ASSERT_EQ false (List.length w) 1%nat w);
   GTest.mkTestInfo (lit "Suite.Throws")
     (GTest.throw (GTest.std_exception (lit "boom")))].

(** Tests on the shared standard output: one that prints a line of its
    own and returns, one that throws. *)
Definition printing_tests : list (GTest.TestInfo (GTest.io (list event))) :=
  [GTest.mkTestInfo (lit "Suite.Prints")
     (GTest.effect (GTest.put (lit "7" ++ endl)));
   GTest.mkTestInfo (lit "Suite.Throws")
     (GTest.throw (GTest.std_exception (lit "boom")))].

(** Tests that print nothing themselves. *)
Definition silent_tests : list (GTest.TestInfo (GTest.io (list event))) :=
  [GTest.mkTestInfo (lit "Suite.Passes")
     (GTest.effect (fun w => (fst w ++ [ev_body 1], snd w)));
   GTest.mkTestInfo (lit "Suite.Throws")
     (GTest.throw GTest.other_exception)].

End Samples.

(* ===================================================================== *)
(** * Part II: properties                                                  *)
(* ===================================================================== *)

(** ** Machine integers *)

Lemma to_int_range (z : Z) : INT_MIN <= to_int z <= INT_MAX.
Proof.
  unfold to_int, INT_MIN, INT_MAX.
  pose proof (Z.mod_pos_bound (z + 2 ^ 31) (2 ^ 32) ltac:(lia)). lia.
Qed.

Lemma to_int_id (z : Z) : INT_MIN <= z <= INT_MAX -> to_int z = z.
Proof.
  unfold to_int, INT_MIN, INT_MAX. intros H.
  rewrite Z.mod_small by lia. lia.
Qed.

Lemma to_int_le (z : Z) : 0 <= z -> to_int z <= z.
Proof.
  unfold to_int. intros H.
  pose proof (Z.mod_le (z + 2 ^ 31) (2 ^ 32) ltac:(lia) ltac:(lia)). lia.
Qed.

Lemma to_size_t_id (z : Z) : 0 <= z < 2 ^ 64 -> to_size_t z = z.
Proof. unfold to_size_t. intros H. now rewrite Z.mod_small. Qed.

Lemma to_size_t_neg (z : Z) : INT_MIN <= z < 0 -> to_size_t z = 2 ^ 64 + z.
Proof.
  unfold to_size_t, INT_MIN. intros H.
  symmetry. apply (Z.mod_unique_pos z (2 ^ 64) (-1)); lia.
Qed.

(** ** Byte strings *)

Lemma size_nonneg (s : std_string) : 0 <= size s.
Proof. unfold size. lia. Qed.

Lemma c_str_length (s : std_string) : size (c_str s) <= size s.
Proof.
  unfold size. induction s as [|c r IH]; simpl; [lia|].
  destruct (code c =? 0); simpl; lia.
Qed.

Lemma substr_in_range (s : std_string) (pos n : Z) :
  0 <= pos <= size s -> 0 <= n ->
  exists r, substr s pos n = Ok r /\ size r <= n
            /\ r = take (Z.to_nat n) (drop (Z.to_nat pos) s).
Proof.
  intros Hpos Hn. unfold substr.
  destruct (Z.gtb_spec pos (size s)) as [Hgt|_]; [lia|].
  eexists; split; [reflexivity|]. unfold size in *. split.
  - rewrite length_take, length_drop. lia.
  - destruct (Z.min_spec n (Z.of_nat (List.length s) - pos)) as [[_ ->]|[Hle ->]];
      [reflexivity|].
    rewrite !take_ge; [reflexivity| |]; rewrite length_drop; lia.
Qed.

(** ** The text value: [substring] *)

Section Substring.

Import Text.

Lemma length_le_size (this : String) : 0 <= length this -> length this <= size (content this).
Proof. unfold length. intros H. apply to_int_le, size_nonneg. Qed.

(** On the path that reaches [substr], the two clamped arguments satisfy
    [0 <= start < end <= length()], so that neither the [int]
    subtraction nor the conversions to [size_t] change a value. *)
Lemma substring_reaches_substr (this : String) (start end_ : Z) :
  spec_clamp_start start < spec_clamp_end this end_ ->
  substring this start end_ =
    (s ← substr (content this) (spec_clamp_start start)
                (spec_clamp_end this end_ - spec_clamp_start start);
     mret (String_of_cstr s))
  /\ 0 <= spec_clamp_start start
  /\ spec_clamp_end this end_ <= length this.
Proof.
  unfold substring, spec_clamp_start, spec_clamp_end.
  pose proof (to_int_range (size (content this))) as HL.
  fold (length this) in HL. unfold INT_MIN, INT_MAX in HL.
  intros Hlt.
  destruct (Z.eqb_spec end_ (-1)) as [He|He];
    destruct (Z.ltb_spec start 0) as [Hs|Hs].
  all: try (destruct (Z.gtb_spec (length this) (length this)) as [?|_]; [lia|]).
  all: try destruct (Z.gtb_spec end_ (length this)) as [Hg|Hg].
  all: match goal with
       | |- context [?a >=? ?b] => destruct (Z.geb_spec a b) as [Hge|Hge]; [lia|]
       end.
  all: rewrite to_int_id by (unfold INT_MIN, INT_MAX; lia).
  all: rewrite !to_size_t_id by lia.
  all: repeat split; try lia.
  all: try (rewrite Z.max_l by lia; reflexivity).
  all: try (rewrite Z.max_r by lia; reflexivity).
Qed.

Lemma substring_empty_range (this : String) (start end_ : Z) :
  spec_clamp_end this end_ <= spec_clamp_start start ->
  substring this start end_ = Ok (String_of_cstr (lit "")).
Proof.
  unfold substring, spec_clamp_start, spec_clamp_end. intros Hle.
  destruct (Z.eqb_spec end_ (-1)) as [He|He];
    destruct (Z.ltb_spec start 0) as [Hs|Hs].
  all: try (destruct (Z.gtb_spec (length this) (length this)) as [?|_]; [lia|]).
  all: try destruct (Z.gtb_spec end_ (length this)) as [Hg|Hg].
  all: match goal with
       | |- context [?a >=? ?b] => destruct (Z.geb_spec a b) as [Hge|Hge]; [|lia]
       end.
  all: reflexivity.
Qed.

(** C5. For every text value and every pair of integers [start], [end_]
    (negative, inverted and out-of-bounds ones included), [substring]
    throws nothing and returns a text value [r]: the bytes of the content
    from the clamped start up to the clamped end, read back through a
    [const char*]. [start] is clamped to at least 0, [end_] to the length
    when it is -1 or exceeds the length; an empty or inverted clamped
    range gives the empty text; the length of [r] never exceeds
    [max 0 (clamp end_ - clamp start)]. *)
Theorem substring_total_clamped_bounded (this : String) (start end_ : Z) :
  exists r : String,
    substring this start end_ = Ok r
    /\ content r =
         c_str (take (Z.to_nat (spec_clamp_end this end_ - spec_clamp_start start))
                     (drop (Z.to_nat (spec_clamp_start start)) (content this)))
    /\ (spec_clamp_end this end_ <= spec_clamp_start start -> content r = [])
    /\ size (content r) <= Z.max 0 (spec_clamp_end this end_ - spec_clamp_start start)
    /\ length r <= Z.max 0 (spec_clamp_end this end_ - spec_clamp_start start).
Proof.
  destruct (Z.le_gt_cases (spec_clamp_end this end_) (spec_clamp_start start))
    as [Hle|Hlt].
  - exists (String_of_cstr (lit "")). split; [now apply substring_empty_range|].
    replace (Z.to_nat (spec_clamp_end this end_ - spec_clamp_start start))
      with O by lia.
    cbn. repeat split; try reflexivity; try lia.
    all: change (0 <= Z.max 0 (spec_clamp_end this end_ - spec_clamp_start start));
      lia.
  - destruct (substring_reaches_substr this start end_ Hlt) as (Heq & Hs0 & HeL).
    assert (HL : 0 <= length this) by lia.
    pose proof (length_le_size this HL) as Hsz.
    destruct (substr_in_range (content this) (spec_clamp_start start)
                (spec_clamp_end this end_ - spec_clamp_start start))
      as (r & Hr & Hlen & Hdef); [lia|lia|].
    exists (String_of_cstr r). rewrite Heq, Hr. split; [reflexivity|].
    pose proof (c_str_length r) as Hc.
    assert (Hb : size (c_str r) <=
                 Z.max 0 (spec_clamp_end this end_ - spec_clamp_start start)) by lia.
    simpl. split; [now rewrite Hdef|]. split; [lia|]. split; [exact Hb|].
    unfold length. simpl.
    pose proof (size_nonneg (c_str r)).
    pose proof (to_int_le (size (c_str r))). lia.
Qed.

Example substring_samples :
  let hello := String_of_cstr (lit "hello") in
  substring hello 1 3 = Ok (mkString (lit "el"))
  /\ substring hello 2 (-1) = Ok (mkString (lit "llo"))
  /\ substring hello (-3) 99 = Ok (mkString (lit "hello"))
  /\ substring hello 4 2 = Ok (mkString [])
  /\ substring hello (-5) (-2) = Ok (mkString [])
  /\ substring hello 7 (-1) = Ok (mkString []).
Proof. repeat split. Qed.

(** The result is read back through a [const char*]: when the content
    holds a NUL byte (appended as a [char]), the result stops before it
    and is shorter than the clamped range. *)
Example substring_stops_at_nul :
  let s := append_cstr (append_char (String_of_cstr (lit "ab")) zero) (lit "cd") in
  length s = 5 /\ substring s 0 5 = Ok (mkString (lit "ab")).
Proof. split; reflexivity. Qed.

End Substring.

(** ** The text value: [toInt] *)

Section ToInt.

Import Text.

Lemma isdigit_code (c : ascii) : isdigit c = true -> 48 <= code c <= 57.
Proof. unfold isdigit. intros H. apply andb_true_iff in H. lia. Qed.

Lemma isspace_code (c : ascii) :
  isspace c = true -> code c = 32 \/ 9 <= code c <= 13.
Proof.
  unfold isspace. intros H. apply orb_true_iff in H.
  destruct H as [H|H]; [lia|]. apply andb_true_iff in H. lia.
Qed.

Lemma isdigit_not_space (c : ascii) : isdigit c = true -> isspace c = false.
Proof.
  intros H. apply isdigit_code in H.
  destruct (isspace c) eqn:E; [apply isspace_code in E; lia|reflexivity].
Qed.

Lemma c_str_app (a b : std_string) :
  forallb (fun c => negb (code c =? 0)) a = true ->
  c_str (a ++ b) = a ++ c_str b.
Proof.
  induction a as [|c a IH]; simpl; [reflexivity|].
  intros H. apply andb_true_iff in H. destruct H as [Hc Ha].
  destruct (code c =? 0); [discriminate|]. now rewrite IH.
Qed.

Lemma starts_with_c_str (p : ascii -> bool) (s : std_string) :
  starts_with p s = false -> starts_with p (c_str s) = false.
Proof.
  destruct s as [|c r]; simpl; [reflexivity|].
  destruct (code c =? 0); simpl; auto.
Qed.

Lemma skip_space_app (ws s : std_string) :
  forallb isspace ws = true -> starts_with isspace s = false ->
  skip_space (ws ++ s) = s.
Proof.
  induction ws as [|c ws IH]; simpl.
  - intros _ H. destruct s as [|c r]; [reflexivity|].
    simpl in *. now rewrite H.
  - intros H Hs. apply andb_true_iff in H. destruct H as [-> Hws]. auto.
Qed.

Lemma parse_digits_app (ds rest : std_string) (acc : Z) (n : nat) :
  forallb isdigit ds = true -> starts_with isdigit rest = false ->
  parse_digits (ds ++ rest) acc n =
    (fold_left (fun acc c => 10 * acc + digit_val c) ds acc,
     (n + List.length ds)%nat).
Proof.
  revert acc n. induction ds as [|c ds IH]; simpl; intros acc n Hd Hr.
  - rewrite Nat.add_0_r. destruct rest as [|c r]; [reflexivity|].
    simpl in *. now rewrite Hr.
  - apply andb_true_iff in Hd. destruct Hd as [-> Hd].
    rewrite IH by assumption. f_equal. lia.
Qed.

Lemma parse_digits_none (s : std_string) :
  starts_with isdigit s = false -> parse_digits s 0 O = (0, O).
Proof. destruct s as [|c r]; simpl; [reflexivity|]. now intros ->. Qed.

Lemma digits_no_nul (ds : std_string) :
  forallb isdigit ds = true ->
  forallb (fun c => negb (code c =? 0)) ds = true.
Proof.
  induction ds as [|c ds IH]; simpl; [reflexivity|].
  intros H. apply andb_true_iff in H. destruct H as [Hc Hd].
  apply isdigit_code in Hc. rewrite IH by assumption.
  destruct (Z.eqb_spec (code c) 0); [lia|reflexivity].
Qed.

Lemma spaces_no_nul (ws : std_string) :
  forallb isspace ws = true ->
  forallb (fun c => negb (code c =? 0)) ws = true.
Proof.
  induction ws as [|c ws IH]; simpl; [reflexivity|].
  intros H. apply andb_true_iff in H. destruct H as [Hc Hd].
  apply isspace_code in Hc. rewrite IH by assumption.
  destruct (Z.eqb_spec (code c) 0); [lia|reflexivity].
Qed.

(** [stoi] on white space, a sign and at least one digit, followed by
    anything that does not start with a digit. *)
Lemma stoi_leading_integer (ws ds rest : std_string) (sg : sign_prefix) :
  forallb isspace ws = true ->
  forallb isdigit ds = true -> ds <> [] ->
  starts_with isdigit rest = false ->
  stoi (ws ++ sign_bytes sg ++ ds ++ rest) =
    let v := apply_sign sg (digits_value ds) in
    if (INT_MIN <=? v) && (v <=? INT_MAX) then Ok v else Throw out_of_range.
Proof.
  intros Hws Hds Hne Hrest. unfold stoi.
  assert (Hd0 : exists d ds', ds = d :: ds' /\ isdigit d = true).
  { destruct ds as [|d ds']; [congruence|]. simpl in Hds.
    apply andb_true_iff in Hds. destruct Hds. eauto. }
  destruct Hd0 as (d & ds' & Hds' & Hd).
  pose proof (isdigit_code d Hd) as Hdc.
  pose proof (isdigit_not_space d Hd) as Hdsp.
  rewrite (c_str_app ws) by now apply spaces_no_nul.
  assert (Hsign : c_str (sign_bytes sg ++ ds ++ rest) =
                  sign_bytes sg ++ ds ++ c_str rest).
  { rewrite c_str_app by (destruct sg; reflexivity).
    now rewrite c_str_app by now apply digits_no_nul. }
  rewrite Hsign.
  rewrite skip_space_app; [|assumption|destruct sg; subst ds; simpl; auto].
  pose proof (starts_with_c_str isdigit rest Hrest) as Hrest'.
  assert (Hlen : exists k, (0 + List.length ds)%nat = S k).
  { subst ds. simpl. eauto. }
  destruct Hlen as [k Hk].
  destruct sg; cbn [sign_bytes lit list_ascii_of_string app].
  - subst ds. cbn [app]. cbv beta iota.
    destruct (Z.eqb_spec (code d) 45); [lia|].
    destruct (Z.eqb_spec (code d) 43); [lia|].
    change (d :: ds' ++ c_str rest) with ((d :: ds') ++ c_str rest).
    rewrite parse_digits_app by assumption. rewrite Hk. reflexivity.
  - cbv beta iota.
    change (code "+" =? 45) with false. change (code "+" =? 43) with true.
    cbv iota. rewrite parse_digits_app by assumption. rewrite Hk. reflexivity.
  - cbv beta iota. change (code "-" =? 45) with true.
    cbv iota. rewrite parse_digits_app by assumption. rewrite Hk. reflexivity.
Qed.

(** [stoi] finds nothing to convert when, after the white space, the text
    neither starts with a digit nor with a sign that a digit follows. *)
Lemma stoi_no_digit (ws rest : std_string) (sg : sign_prefix) :
  forallb isspace ws = true ->
  starts_with isdigit rest = false ->
  (sg = no_sign ->
   starts_with (fun c => isspace c || (code c =? 45) || (code c =? 43)) rest = false) ->
  stoi (ws ++ sign_bytes sg ++ rest) = Throw invalid_argument.
Proof.
  intros Hws Hrest Hsg. unfold stoi.
  rewrite (c_str_app ws) by now apply spaces_no_nul.
  rewrite (c_str_app (sign_bytes sg)) by (destruct sg; reflexivity).
  pose proof (starts_with_c_str _ rest Hrest) as Hrest'.
  destruct sg; cbn [sign_bytes lit list_ascii_of_string app].
  - specialize (Hsg eq_refl). apply starts_with_c_str in Hsg.
    rewrite skip_space_app; [|assumption|].
    + destruct (c_str rest) as [|c r]; [reflexivity|]. simpl in Hsg, Hrest'.
      apply orb_false_iff in Hsg. destruct Hsg as [Hsg ->].
      apply orb_false_iff in Hsg. destruct Hsg as [_ ->].
      simpl. now rewrite Hrest'.
    + destruct (c_str rest) as [|c r]; [reflexivity|]. simpl in *.
      apply orb_false_iff in Hsg. destruct Hsg as [Hsg _].
      apply orb_false_iff in Hsg. tauto.
  - rewrite skip_space_app by (assumption || reflexivity). cbv beta iota.
    change (code "+" =? 45) with false. change (code "+" =? 43) with true.
    cbv iota. now rewrite parse_digits_none.
  - rewrite skip_space_app by (assumption || reflexivity). cbv beta iota.
    change (code "-" =? 45) with true.
    cbv iota. now rewrite parse_digits_none.
Qed.

(** C8. [toInt] parses a leading integer (white space, an optional sign,
    decimal digits, whatever follows being ignored) and returns its
    value when it fits an [int]; whenever the conversion fails (the
    [std::stoi] it calls throws) it returns 0 instead of failing. In
    particular ["42abc"] gives 42, ["abc"] gives 0 and [""] gives 0. *)
Theorem toInt_leading_integer_or_zero :
  (forall (ws ds rest : std_string) (sg : sign_prefix),
      forallb isspace ws = true ->
      forallb isdigit ds = true -> ds <> [] ->
      starts_with isdigit rest = false ->
      INT_MIN <= apply_sign sg (digits_value ds) <= INT_MAX ->
      toInt (mkString (ws ++ sign_bytes sg ++ ds ++ rest)) =
        apply_sign sg (digits_value ds))
  /\ (forall (this : String) (e : exn),
        stoi (content this) = Throw e -> toInt this = 0)
  /\ toInt (String_of_cstr (lit "42abc")) = 42
  /\ toInt (String_of_cstr (lit "abc")) = 0
  /\ toInt (String_of_cstr (lit "")) = 0.
Proof.
  split; [|split; [|repeat split]].
  - intros ws ds rest sg Hws Hds Hne Hrest Hrange.
    unfold toInt. cbn [content].
    rewrite stoi_leading_integer by assumption. cbv zeta.
    destruct (Z.leb_spec INT_MIN (apply_sign sg (digits_value ds))); [|lia].
    destruct (Z.leb_spec (apply_sign sg (digits_value ds)) INT_MAX); [|lia].
    reflexivity.
  - intros this e H. unfold toInt. now rewrite H.
Qed.

Lemma toInt_leading_integer_or_zero_witness :
  forallb isspace (lit " ") = true
  /\ forallb isdigit (lit "42") = true
  /\ lit "42" <> []
  /\ starts_with isdigit (lit "abc") = false
  /\ INT_MIN <= apply_sign minus_sign (digits_value (lit "42")) <= INT_MAX
  /\ toInt (mkString (lit " " ++ sign_bytes minus_sign ++ lit "42" ++ lit "abc")) = -42.
Proof.
  assert (H1 : forallb isspace (lit " ") = true) by reflexivity.
  assert (H2 : forallb isdigit (lit "42") = true) by reflexivity.
  assert (H3 : lit "42" <> []) by discriminate.
  assert (H4 : starts_with isdigit (lit "abc") = false) by reflexivity.
  assert (H5 : INT_MIN <= apply_sign minus_sign (digits_value (lit "42")) <= INT_MAX)
    by (vm_compute; split; discriminate).
  repeat (split; [assumption|]).
  exact (proj1 toInt_leading_integer_or_zero
           (lit " ") (lit "42") (lit "abc") minus_sign H1 H2 H3 H4 H5).
Defined.

(** Further evaluations: a value that does not fit an [int], a sign with
    no digit, and white space before the digits. *)
Example toInt_out_of_range :
  stoi (lit "99999999999") = Throw out_of_range
  /\ toInt (String_of_cstr (lit "99999999999")) = 0.
Proof. split; reflexivity. Qed.

Example toInt_sign_only : toInt (String_of_cstr (lit "-")) = 0.
Proof. reflexivity. Qed.

Example toInt_int_min : toInt (String_of_cstr (lit "  -2147483648;")) = INT_MIN.
Proof. reflexivity. Qed.

End ToInt.

(** ** The text value: [indexOf] *)

Section IndexOf.

Import Text.

Lemma prefix_b_true (p s : std_string) :
  prefix_b p s = true <->
  (List.length p <= List.length s)%nat /\ take (List.length p) s = p.
Proof.
  revert s. induction p as [|a p IH]; intros s.
  - simpl. split; [intros _; split; [lia|reflexivity]|reflexivity].
  - destruct s as [|b s]; simpl.
    + split; [discriminate|]. intros [H _]. lia.
    + rewrite andb_true_iff, IH, Ascii.eqb_eq. split.
      * intros (-> & Hl & Ht). split; [lia|]. now rewrite Ht.
      * intros (Hl & Ht). injection Ht as -> Ht. repeat split; [lia|assumption].
Qed.

Lemma find_at_Some (needle s : std_string) (i p : nat) :
  find_at needle s i = Some p ->
  exists k, p = (i + k)%nat /\ (k <= List.length s)%nat
            /\ prefix_b needle (drop k s) = true
            /\ forall j, (j < k)%nat -> prefix_b needle (drop j s) = false.
Proof.
  revert i. induction s as [|c r IH]; intros i; simpl.
  - destruct (prefix_b needle []) eqn:E; [|discriminate].
    intros [= <-]. exists O. repeat split; [lia|lia|assumption|lia].
  - destruct (prefix_b needle (c :: r)) eqn:E.
    + intros [= <-]. exists O. repeat split; [lia|lia|assumption|lia].
    + intros H. destruct (IH _ H) as (k & -> & Hk & Hp & Hmin).
      exists (S k). repeat split; [lia|lia|assumption|].
      intros [|j] Hj; [assumption|]. apply Hmin. lia.
Qed.

Lemma find_at_None (needle s : std_string) (i : nat) :
  find_at needle s i = None ->
  forall j, prefix_b needle (drop j s) = false.
Proof.
  revert i. induction s as [|c r IH]; intros i; simpl.
  - destruct (prefix_b needle []) eqn:E; [discriminate|].
    intros _ j. now rewrite drop_nil.
  - destruct (prefix_b needle (c :: r)) eqn:E; [discriminate|].
    intros H [|j]; [assumption|]. simpl. now apply (IH (S i)).
Qed.

Lemma occurs_at_prefix (needle s : std_string) (pos j : nat) :
  occurs_at needle s (Z.of_nat (pos + j)) ->
  prefix_b needle (drop j (drop pos s)) = true.
Proof.
  rewrite prefix_b_true, drop_drop, length_drop.
  unfold occurs_at, size. rewrite Nat2Z.id.
  intros (_ & Hle & Ht). split; [lia|assumption].
Qed.

Lemma prefix_occurs_at (needle s : std_string) (pos j : nat) :
  (pos + j <= List.length s)%nat ->
  prefix_b needle (drop j (drop pos s)) = true ->
  occurs_at needle s (Z.of_nat (pos + j)).
Proof.
  rewrite prefix_b_true, drop_drop, length_drop.
  unfold occurs_at, size. rewrite Nat2Z.id.
  intros Hb (Hle & Ht). repeat split; [lia|lia|assumption].
Qed.

(** The search of the source against the specification's words, for a
    start position that is a valid [size_t] and a text whose positions
    fit the [int] result. *)
Lemma find_first_occurrence (s needle : std_string) (from : Z) :
  0 <= from -> size s <= INT_MAX ->
  first_occurrence_from needle s from (index_result (find s needle from)).
Proof.
  intros Hfrom Hsize. unfold find, index_result.
  pose proof (size_nonneg needle) as Hn.
  assert (Hmax : INT_MAX < npos) by (vm_compute; reflexivity).
  destruct (Z.gtb_spec from (size s)) as [Hgt|Hle].
  - left. split; [reflexivity|].
    intros p Hp (_ & Hocc & _). lia.
  - assert (Hpos : (Z.to_nat from <= List.length s)%nat) by (unfold size in Hle; lia).
    destruct (find_at needle (drop (Z.to_nat from) s) (Z.to_nat from)) as [p|] eqn:E.
    + apply find_at_Some in E. destruct E as (k & -> & Hk & Hpre & Hmin).
      rewrite length_drop in Hk.
      assert (Hp : Z.of_nat (Z.to_nat from + k) <= size s) by (unfold size; lia).
      destruct (Z.eqb_spec (Z.of_nat (Z.to_nat from + k)) npos) as [Heq|_]; [lia|].
      rewrite to_int_id by (unfold INT_MIN, INT_MAX in *; lia).
      right. split; [lia|]. split.
      * apply prefix_occurs_at; [lia|assumption].
      * intros q Hq Hocc.
        replace q with (Z.of_nat (Z.to_nat from + Z.to_nat (q - from))) in Hocc by lia.
        apply occurs_at_prefix in Hocc.
        rewrite Hmin in Hocc by lia. discriminate.
    + change (npos =? npos) with true. cbv iota.
      left. split; [reflexivity|].
      intros p Hp Hocc.
      replace p with (Z.of_nat (Z.to_nat from + Z.to_nat (p - from))) in Hocc by lia.
      apply occurs_at_prefix in Hocc.
      rewrite (find_at_None _ _ _ E) in Hocc. discriminate.
Qed.

(** A negative start index becomes a [size_t] beyond any text, and the
    search finds nothing. *)
Lemma find_negative_from (s needle : std_string) (from : Z) :
  INT_MIN <= from < 0 -> size s <= INT_MAX ->
  index_result (find s needle (to_size_t from)) = -1.
Proof.
  intros Hfrom Hsize. rewrite to_size_t_neg by assumption.
  unfold find, index_result, INT_MIN, INT_MAX in *.
  destruct (Z.gtb_spec (2 ^ 64 + from) (size s)) as [_|Hle]; [reflexivity|lia].
Qed.

(** C9, as the code has it. For every text value whose length fits an
    [int], every needle (a [String], a [const char*] or a [char]) and
    every [fromIndex] with [0 <= fromIndex], [indexOf] returns the
    position of the first occurrence of the needle at or after
    [fromIndex], or -1 when there is none. *)
Theorem indexOf_first_occurrence_nonneg
    (this str : String) (cstr : std_string) (ch : ascii) (fromIndex : Z) :
  0 <= fromIndex <= INT_MAX ->
  size (content this) <= INT_MAX ->
  first_occurrence_from (content str) (content this) fromIndex
    (indexOf this str fromIndex)
  /\ first_occurrence_from (c_str cstr) (content this) fromIndex
       (indexOf_cstr this cstr fromIndex)
  /\ first_occurrence_from [ch] (content this) fromIndex
       (indexOf_char this ch fromIndex).
Proof.
  intros Hfrom Hsize. unfold indexOf, indexOf_cstr, indexOf_char.
  rewrite to_size_t_id by (unfold INT_MAX in Hfrom; lia).
  repeat split; apply find_first_occurrence; lia.
Qed.

Lemma indexOf_first_occurrence_nonneg_witness :
  0 <= 2 <= INT_MAX
  /\ size (lit "abcabc") <= INT_MAX
  /\ indexOf (mkString (lit "abcabc")) (mkString (lit "bc")) 2 = 4
  /\ first_occurrence_from (lit "bc") (lit "abcabc") 2 4.
Proof.
  assert (H1 : 0 <= 2 <= INT_MAX) by (vm_compute; split; discriminate).
  assert (H2 : size (content (mkString (lit "abcabc"))) <= INT_MAX)
    by (vm_compute; discriminate).
  repeat split; try (vm_compute; discriminate).
  exact (proj1 (indexOf_first_occurrence_nonneg
                  (mkString (lit "abcabc")) (mkString (lit "bc"))
                  (lit "bc") "c"%char 2 H1 H2)).
Defined.

(** C9 as stated fails for a negative [fromIndex]: in ["abc"] the needle
    ["a"] occurs at position 0, which is at or after -1, and [indexOf]
    answers -1. *)
Lemma indexOf_negative_from_counterexample :
  indexOf (mkString (lit "abc")) (mkString (lit "a")) (-1) = -1
  /\ occurs_at (lit "a") (lit "abc") 0
  /\ ~ first_occurrence_from (lit "a") (lit "abc") (-1)
         (indexOf (mkString (lit "abc")) (mkString (lit "a")) (-1)).
Proof.
  assert (Hocc : occurs_at (lit "a") (lit "abc") 0).
  { repeat split; vm_compute; discriminate. }
  split; [reflexivity|]. split; [exact Hocc|].
  change (indexOf (mkString (lit "abc")) (mkString (lit "a")) (-1)) with (-1).
  intros [[_ Hnone]|[Hle [Hbad _]]].
  - apply (Hnone 0); [lia|exact Hocc].
  - destruct Hbad as [H _]. lia.
Qed.

Example indexOf_found :
  indexOf (mkString (lit "hello world")) (mkString (lit "o")) 5 = 7
  /\ indexOf_char (mkString (lit "hello world")) "z"%char 0 = -1
  /\ indexOf_cstr (mkString (lit "hello")) (lit "") 5 = 5
  /\ indexOf_cstr (mkString (lit "hello")) (lit "") 6 = -1.
Proof. repeat split. Qed.

End IndexOf.

(** ** Digital pins *)

Section DigitalIO.

Import Arduino Samples.

Lemma digitalRead_level (p : Z) (w : World) : fst (digitalRead p w) = level w p.
Proof. unfold digitalRead, level. now destruct (pin_states w !! p). Qed.

Lemma digitalRead_keeps_levels (p q : Z) (w : World) :
  level (snd (digitalRead p w)) q = level w q.
Proof.
  unfold digitalRead, level. destruct (pin_states w !! p) eqn:E; [reflexivity|].
  simpl. rewrite lookup_insert. case_decide; [subst; now rewrite E|reflexivity].
Qed.

Lemma digitalRead_keeps_log (p : Z) (w : World) :
  mock_digitalWrite_calls (snd (digitalRead p w)) = mock_digitalWrite_calls w.
Proof. unfold digitalRead. now destruct (pin_states w !! p). Qed.

Lemma run_snoc (cs : list call) (c : call) (w : World) :
  run (cs ++ [c]) w = step c (run cs w).
Proof. unfold run. now rewrite fold_left_app. Qed.

Lemma since_reset_snoc (cs : list call) (c : call) :
  since_reset (cs ++ [c]) = if is_reset c then [] else since_reset cs ++ [c].
Proof.
  induction cs as [|a cs IH]; simpl.
  - now destruct (is_reset c).
  - rewrite existsb_app, IH. simpl. rewrite orb_false_r.
    destruct (is_reset c) eqn:Ec.
    + now rewrite orb_true_r.
    + rewrite orb_false_r. destruct (existsb is_reset cs); [reflexivity|].
      now destruct (is_reset a).
Qed.

Lemma writes_snoc (cs : list call) (c : call) :
  writes (cs ++ [c]) =
    writes cs ++ match c with
                 | call_digitalWrite p v => [mkDigitalWriteCall p v]
                 | _ => []
                 end.
Proof.
  induction cs as [|a cs IH]; simpl.
  - now destruct c.
  - rewrite IH. now destruct a.
Qed.

Lemma last_written_snoc (p : Z) (cs : list call) (c : call) (d : Z) :
  last_written p (cs ++ [c]) d =
    match c with
    | call_digitalWrite q v =>
        if bool_decide (q = p) then v else last_written p cs d
    | _ => last_written p cs d
    end.
Proof.
  revert d. induction cs as [|a cs IH]; intros d; simpl.
  - now destruct c.
  - destruct a; apply IH.
Qed.

Lemma last_written_unwritten (p : Z) (cs : list call) (d : Z) :
  existsb (writes_to p) cs = false -> last_written p cs d = d.
Proof.
  revert d. induction cs as [|a cs IH]; intros d; simpl; [reflexivity|].
  intros H. apply orb_false_iff in H. destruct H as [Ha Hcs].
  destruct a; simpl in Ha; try now apply IH.
  rewrite Ha. now apply IH.
Qed.

Lemma last_written_after (p v : Z) (before after : list call) (d : Z) :
  existsb (writes_to p) after = false ->
  last_written p (before ++ call_digitalWrite p v :: after) d = v.
Proof.
  revert d. induction before as [|a cs IH]; intros d H; simpl.
  - rewrite bool_decide_true by reflexivity. now apply last_written_unwritten.
  - destruct a; now apply IH.
Qed.

(** The two views of the pins after any calls that follow a reset. *)
Lemma run_after_reset (cs : list call) (now : Z) (w : World) :
  let w' := run cs (reset_arduino_stubs now w) in
  mock_digitalWrite_calls w' = writes (since_reset cs)
  /\ forall p, level w' p = last_written p (since_reset cs) 0.
Proof.
  induction cs as [|c cs IH] using rev_ind; cbv zeta.
  - split; [reflexivity|]. intros p. unfold level. simpl.
    now rewrite lookup_empty.
  - cbv zeta in IH. destruct IH as [Hlog Hlev].
    rewrite run_snoc, since_reset_snoc.
    set (w1 := run cs (reset_arduino_stubs now w)) in *.
    destruct c; simpl is_reset; cbv iota;
      [split; [reflexivity|intros q; unfold level; simpl; now rewrite lookup_empty]|..].
    all: rewrite writes_snoc; split; [|intros q; rewrite last_written_snoc];
      simpl step.
    all: try (rewrite app_nil_r; exact Hlog).
    all: try (rewrite <- Hlev; reflexivity).
    + simpl. now rewrite Hlog.
    + unfold level. simpl. rewrite lookup_insert.
      case_decide as E.
      * subst. now rewrite bool_decide_true.
      * rewrite bool_decide_false by assumption. apply Hlev.
    + rewrite digitalRead_keeps_log, app_nil_r. exact Hlog.
    + rewrite digitalRead_keeps_levels. apply Hlev.
Qed.

(** C6. After any sequence of calls that follows a reset, with [recent]
    the calls made since the last reset: a pin never written reads 0; a
    pin that was written reads the value of the most recent write to it;
    the write log holds one entry per write call, in call order; and a
    reset empties the log and the pin table together. *)
Theorem pins_and_write_log_since_reset (cs : list call) (now : Z) (w : World) :
  let w' := run cs (reset_arduino_stubs now w) in
  let recent := since_reset cs in
  (forall p, existsb (writes_to p) recent = false ->
             fst (digitalRead p w') = 0)
  /\ (forall p v before after,
         recent = before ++ call_digitalWrite p v :: after ->
         existsb (writes_to p) after = false ->
         fst (digitalRead p w') = v)
  /\ mock_digitalWrite_calls w' = writes recent
  /\ (forall now',
         mock_digitalWrite_calls (reset_arduino_stubs now' w') = []
         /\ pin_states (reset_arduino_stubs now' w') = ∅).
Proof.
  cbv zeta. destruct (run_after_reset cs now w) as [Hlog Hlev].
  cbv zeta in Hlog, Hlev. repeat split.
  - intros p Hp. rewrite digitalRead_level, Hlev.
    now apply last_written_unwritten.
  - intros p v before after Heq Hafter.
    rewrite digitalRead_level, Hlev, Heq.
    now apply last_written_after.
  - exact Hlog.
Qed.

Lemma pins_and_write_log_since_reset_witness :
  let w' := run sample_calls (reset_arduino_stubs 0 sample_world) in
  existsb (writes_to 7) (since_reset sample_calls) = false
  /\ fst (digitalRead 7 w') = 0
  /\ since_reset sample_calls =
       [call_digitalWrite 2 1; call_digitalRead 7]
         ++ call_digitalWrite 13 1
         :: [call_pinMode 2 1; call_digitalWrite 13 0; call_delay 10;
             call_digitalWrite 2 0]
  /\ fst (digitalRead 13 w') = 0
  /\ mock_digitalWrite_calls w' =
       [mkDigitalWriteCall 2 1; mkDigitalWriteCall 13 1;
        mkDigitalWriteCall 13 0; mkDigitalWriteCall 2 0].
Proof.
  cbv zeta.
  destruct (pins_and_write_log_since_reset sample_calls 0 sample_world)
    as (Hnever & Hlast & Hlog & _).
  cbv zeta in Hnever, Hlast, Hlog.
  split; [reflexivity|]. split; [apply Hnever; reflexivity|].
  split; [reflexivity|].
  split; [|exact Hlog].
  apply (Hlast 13 0
           [call_digitalWrite 2 1; call_digitalRead 7; call_digitalWrite 13 1;
            call_pinMode 2 1]
           [call_delay 10; call_digitalWrite 2 0]); reflexivity.
Defined.

End DigitalIO.

(** ** The serial console *)

Section Console.

Import Arduino Samples.

(** The text and raw byte string forms do all three. *)
Lemma print_text_forms (str : Text.String) (raw : std_string) (w : World) :
  logged_buffered_counted (Text.content str) w (print_String str w)
  /\ logged_buffered_counted (c_str raw) w (print_cstr raw w)
  /\ line_logged_buffered_counted (Text.content str) w (println_String str w)
  /\ line_logged_buffered_counted (c_str raw) w (println_cstr raw w).
Proof. repeat split. Qed.

Example to_string_samples :
  to_string 42 = lit "42" /\ to_string 0 = lit "0" /\ to_string (-7) = lit "-7".
Proof. repeat split. Qed.

(** C3, at the integer forms. [print(int)] and [println(int)] append the
    rendered number to the per-call log and write it to the standard
    output, but leave the output buffer and the call counter as they
    were: after [Serial.print(42)] on a console that was just reset, the
    log is [["42"]], the buffer is empty and the counter is 0. *)
Theorem print_int_skips_buffer_and_counter :
  (forall (val : Z) (w : World),
      print_calls (Serial (print_int val w)) =
        print_calls (Serial w) ++ [to_string val]
      /\ outputBuffer (Serial (print_int val w)) = outputBuffer (Serial w)
      /\ print_call_count (Serial (print_int val w)) = print_call_count (Serial w)
      /\ println_calls (Serial (println_int val w)) =
           println_calls (Serial w) ++ [to_string val]
      /\ outputBuffer (Serial (println_int val w)) = outputBuffer (Serial w)
      /\ println_call_count (Serial (println_int val w)) =
           println_call_count (Serial w))
  /\ (let w := print_int 42 (reset_arduino_stubs 0 sample_world) in
      print_calls (Serial w) = [lit "42"]
      /\ outputBuffer (Serial w) = []
      /\ print_call_count (Serial w) = 0
      /\ ~ logged_buffered_counted (lit "42")
             (reset_arduino_stubs 0 sample_world) w).
Proof.
  split; [intros val w; repeat split|].
  cbv zeta. repeat split.
  intros (_ & Hbuf & _). discriminate Hbuf.
Qed.

End Console.

(** ** The network client *)

Section Network.

Import HTTP.

(** C7. With the response code 404 and the body ["not found"]
    configured, [GET] then [getString] give (404, ["not found"]), also
    when the request is opened first; after [reset] the same two calls
    give (200, [""]) and the begin counter is zero. The same configuration
    on a [MockHTTPClient] gives (404, ["not found"]), and a fresh one
    gives (200, [""]). *)
Theorem configured_response_then_reset
    (h : HTTPClient) (m : MockHTTPClient) (url : Text.String) (ms : Z) :
  let h1 := setResponseBody (lit "not found") (setResponseCode 404 h) in
  let h2 := setTimeout ms (begin url h1) in
  GET h1 = 404
  /\ getString h1 = Text.mkString (lit "not found")
  /\ GET h2 = 404
  /\ getString h2 = Text.mkString (lit "not found")
  /\ GET (reset h2) = 200
  /\ getString (reset h2) = Text.mkString (lit "")
  /\ begin_call_count (reset h2) = 0
  /\ (let m1 := Mock_setResponseString (Text.String_of_cstr (lit "not found"))
                  (Mock_setResponseCode 404 m) in
      let m2 := Mock_setTimeout ms (Mock_begin url m1) in
      Mock_GET m2 = 404
      /\ Mock_getString m2 = Text.mkString (lit "not found"))
  /\ Mock_GET MockHTTPClient_new = 200
  /\ Mock_getString MockHTTPClient_new = Text.mkString (lit "").
Proof. cbv zeta. repeat split. Qed.

(** The calls of the request itself leave the configured response alone,
    and each [begin] is counted. *)
Lemma request_calls_keep_response (h : HTTPClient) (url : Text.String) (ms : Z) :
  let h1 := end_ (setTimeout ms (begin url h)) in
  GET h1 = GET h /\ getString h1 = getString h
  /\ begin_call_count h1 = begin_call_count h + 1
  /\ begin_url h1 = Text.content url.
Proof. cbv zeta. repeat split. Qed.

End Network.

(** ** The flash filesystem *)

Section Filesystem.

Import SPIFFS.

Lemma open_keeps_count (path mode : std_string) (st : State) :
  count (snd (open path mode st)) = count st.
Proof. reflexivity. Qed.

(** The answers of successive calls depend on the shared counter alone,
    whatever handles the calls are made on. *)
Lemma available_calls_count (handles : list File) (st : State) :
  fst (available_calls handles st) =
    map (fun i => count st + Z.of_nat i <? 10) (seq 0 (List.length handles))
  /\ count (snd (available_calls handles st)) =
       count st + Z.of_nat (List.length handles).
Proof.
  revert st. induction handles as [|f r IH]; intros st.
  - simpl. split; [reflexivity|lia].
  - cbn [available_calls]. unfold available.
    destruct (available_calls r (mkState (count st + 1) (cout st)))
      as [l st2] eqn:E.
    destruct (IH (mkState (count st + 1) (cout st))) as [H1 H2].
    rewrite E in H1, H2. simpl in H1, H2.
    cbn [fst snd List.length seq map]. split.
    + rewrite Z.add_0_r. f_equal. rewrite H1, <- seq_shift, map_map.
      apply map_ext. intros i. f_equal. lia.
    + rewrite H2. lia.
Qed.

(** On the first handle of a process, [available] answers true for
    exactly the first ten calls and false on every later call. *)
Lemma first_handle_stream (path mode : std_string) (n : nat) :
  let '(f, st) := open path mode initial in
  fst (available_calls (replicate n f) st) =
    map (fun i => Z.of_nat i <? 10) (seq 0 n).
Proof.
  simpl. destruct (available_calls_count (replicate n mkFile)
                     (snd (open path mode initial))) as [H _].
  simpl in H. rewrite H, length_replicate. reflexivity.
Qed.

(** C4, at a second handle. The counter that [available] tests is one
    [static] variable of the function, shared by all handles: when the
    first handle has answered its ten calls, a handle opened afterwards
    answers false from its first call on. *)
Theorem second_handle_finds_stream_used_up :
  let '(f1, st1) := open (lit "/config.txt") (lit "r") initial in
  let '(answers1, st2) := available_calls (replicate 10 f1) st1 in
  let '(f2, st3) := open (lit "/log.txt") (lit "r") st2 in
  let '(answers2, st4) := available_calls (replicate 10 f2) st3 in
  answers1 = replicate 10 true /\ answers2 = replicate 10 false.
Proof. vm_compute. split; reflexivity. Qed.

(** In general, a handle opened when [k] calls of [available] have been
    made answers true on [10 - k] calls only. *)
Lemma later_handle_stream (path mode : std_string) (st : State) (n : nat) :
  let '(f, st') := open path mode st in
  fst (available_calls (replicate n f) st') =
    map (fun i => count st + Z.of_nat i <? 10) (seq 0 n).
Proof.
  simpl. destruct (available_calls_count (replicate n mkFile)
                     (snd (open path mode st))) as [H _].
  simpl in H. rewrite H, length_replicate. reflexivity.
Qed.

(** The fuel that [readStringUntil] gives its loop is enough: any larger
    amount gives the same result. *)
Lemma readStringUntil_loop_fuel (f : File) (terminator : ascii) (fuel : nat) :
  forall (fuel' : nat) (result : std_string) (st : State),
    (Z.to_nat (10 - count st) < fuel)%nat ->
    (Z.to_nat (10 - count st) < fuel')%nat ->
    readStringUntil_loop fuel f terminator result st =
      readStringUntil_loop fuel' f terminator result st.
Proof.
  induction fuel as [|n IH]; intros fuel' result st H H'; [lia|].
  destruct fuel' as [|n']; [lia|].
  cbn [readStringUntil_loop available].
  destruct (Z.ltb_spec (count st) 10) as [Hlt|Hge]; [|reflexivity].
  cbn [andb].
  destruct (negb (Ascii.eqb (read f) terminator)); [|reflexivity].
  apply IH; cbn [count]; lia.
Qed.

(** The first line read in a process holds the ten filler bytes; a line
    read afterwards, from the same or from another handle, is empty. *)
Example readStringUntil_twice :
  let '(f1, st1) := open (lit "/config.txt") (lit "r") initial in
  let '(line1, st2) := readStringUntil f1 (ascii_of_nat 10) st1 in
  let '(f2, st3) := open (lit "/log.txt") (lit "r") st2 in
  let '(line2, st4) := readStringUntil f2 (ascii_of_nat 10) st3 in
  line1 = Text.mkString (lit "aaaaaaaaaa") /\ line2 = Text.mkString [].
Proof. vm_compute. split; reflexivity. Qed.

End Filesystem.

(** ** The test registry and the runner *)

Section Runner.

Import GTest.
Context {W : Type}.

Implicit Types (ts : list (TestInfo W)) (cs : list (invocation W)).

Lemma thrown_count_cons (c : invocation W) cs :
  thrown_count (c :: cs) =
    (if is_thrown (ended c) then 1 else 0) + thrown_count cs.
Proof.
  unfold thrown_count. simpl.
  destruct (is_thrown (ended c)); simpl List.length; lia.
Qed.

Lemma in_order_length i (w : W) ts cs :
  in_order i w ts cs -> List.length cs = List.length ts.
Proof. induction 1; simpl; congruence. Qed.

Lemma in_order_positions i (w : W) ts cs :
  in_order i w ts cs -> map position cs = seq i (List.length ts).
Proof. induction 1; simpl; congruence. Qed.

(** The invocation at position [k] is a call of the [k]-th entry, in the
    state the entries before it have left. *)
Lemma in_order_lookup i (w : W) ts cs (k : nat) (t : TestInfo W) :
  in_order i w ts cs -> ts !! k = Some t ->
  cs !! k =
    Some (mkInvocation (i + k) (state_after_all (take k ts) w)
            (func t (state_after_all (take k ts) w))).
Proof.
  intros H. revert k. induction H as [|i w t' ts cs H IH]; intros k Hk.
  - destruct k; discriminate.
  - destruct k as [|k]; simpl in *.
    + injection Hk as ->. now rewrite Nat.add_0_r.
    + rewrite (IH k Hk). do 2 f_equal. lia.
Qed.

(** When no registered body terminates the process, the loop runs to
    its end: every body is invoked once, in order, a throw ends that
    body only, and the count is the number of bodies that threw. *)
Lemma run_loop_without_abort ts : forall i (st : run_state W),
  Forall (fun t => never_aborts (func t)) ts ->
  exists st' cs,
    run_loop ts i st = Finished st'
    /\ calls st' = calls st ++ cs
    /\ in_order i (world st) ts cs
    /\ failures st' = failures st + thrown_count cs
    /\ world st' = state_after_all ts (world st).
Proof.
  induction ts as [|t ts IH]; intros i st Hall.
  - exists st, []. simpl. rewrite app_nil_r, Z.add_0_r.
    repeat split. constructor.
  - apply Forall_cons in Hall. destruct Hall as [Ht Hts].
    cbn [run_loop state_after_all fold_left].
    destruct (func t (world st)) as [w'|e w'|w'] eqn:E.
    + destruct (IH (S i) (mkRun (failures st) (cout st ++ pass_line t)
                   (calls st ++ [mkInvocation i (world st) (Returned w')]) w') Hts)
        as (st' & cs & Hrun & Hcalls & Hord & Hfail & Hworld).
      cbn [calls world failures] in *.
      exists st', (mkInvocation i (world st) (Returned w') :: cs).
      rewrite thrown_count_cons. cbn [ended is_thrown].
      repeat split; try assumption.
      * now rewrite Hcalls, <- app_assoc.
      * rewrite <- E. constructor. now rewrite E.
    + destruct (IH (S i) (mkRun (failures st + 1) (cout st ++ fail_line t e)
                   (calls st ++ [mkInvocation i (world st) (Thrown e w')]) w') Hts)
        as (st' & cs & Hrun & Hcalls & Hord & Hfail & Hworld).
      cbn [calls world failures] in *.
      exists st', (mkInvocation i (world st) (Thrown e w') :: cs).
      rewrite thrown_count_cons. cbn [ended is_thrown].
      repeat split; try assumption.
      * now rewrite Hcalls, <- app_assoc.
      * rewrite <- E. constructor. now rewrite E.
      * lia.
    + exfalso. exact (Ht _ _ E).
Qed.

(** When a body terminates the process, the loop stops there: the
    entries after it are never invoked and no count is returned. *)
Lemma run_loop_abort ts (t : TestInfo W) (rest : list (TestInfo W)) :
  forall i (st : run_state W) (w' : W),
  Forall (fun t => never_aborts (func t)) ts ->
  func t (state_after_all ts (world st)) = Aborted w' ->
  exists st',
    run_loop (ts ++ t :: rest) i st = Terminated st'
    /\ List.length (calls st') = (List.length (calls st) + List.length ts + 1)%nat
    /\ world st' = w'.
Proof.
  induction ts as [|t0 ts IH]; intros i st w' Hall Hab.
  - simpl in *. rewrite Hab. eexists. split; [reflexivity|].
    cbn [calls world]. rewrite length_app. simpl. split; [lia|reflexivity].
  - apply Forall_cons in Hall. destruct Hall as [Ht Hts].
    cbn [app run_loop state_after_all fold_left] in *.
    destruct (func t0 (world st)) as [w1|e w1|w1] eqn:E.
    + edestruct (IH (S i) (mkRun (failures st) (cout st ++ pass_line t0)
                   (calls st ++ [mkInvocation i (world st) (Returned w1)]) w1) w' Hts)
        as (st' & Hrun & Hlen & Hw); [exact Hab|].
      exists st'. split; [exact Hrun|]. cbn [calls] in Hlen.
      rewrite length_app in Hlen. simpl in *. split; [lia|assumption].
    + edestruct (IH (S i) (mkRun (failures st + 1) (cout st ++ fail_line t0 e)
                   (calls st ++ [mkInvocation i (world st) (Thrown e w1)]) w1) w' Hts)
        as (st' & Hrun & Hlen & Hw); [exact Hab|].
      exists st'. split; [exact Hrun|]. cbn [calls] in Hlen.
      rewrite length_app in Hlen. simpl in *. split; [lia|assumption].
    + exfalso. exact (Ht _ _ E).
Qed.

(** A fixture test runs its teardown only when the body returns: when
    the body throws or terminates the process, the state is the one the
    body left. *)
Lemma TestFunc_body_outcome (fixture : Fixture W) (TestBody : body W) (w w1 : W) :
  SetUp fixture w = Returned w1 ->
  TestFunc fixture TestBody w =
    match TestBody w1 with
    | Returned w2 => TearDown fixture w2
    | Thrown e w2 => Thrown e w2
    | Aborted w2 => Aborted w2
    end.
Proof. intros H. unfold TestFunc, seq_body. now rewrite H. Qed.

Lemma state_after_all_snoc ts (t : TestInfo W) (w : W) :
  state_after_all (ts ++ [t]) w = state_after (func t (state_after_all ts w)).
Proof. unfold state_after_all. now rewrite fold_left_app. Qed.

End Runner.

Section RunnerSamples.

Import GTest Samples.

(** C10, at a first duplicate that fails an assertion. Two bodies are
    registered under the one name ["Suite.Case"] by two calls of
    [register_test]: neither call fails and both entries are in the
    catalog, in registration order. The first of the two bodies fails
    [ASSERT_TRUE(false)]: the process is terminated inside it and the
    runner never invokes the second body. When the bodies registered
    under one name return, the runner invokes both, each at its own
    position. *)
Theorem duplicate_name_second_body_not_run :
  map name (tests_ (same_name_first_fails false)) =
    [lit "Suite.Case"; lit "Suite.Case"]
  /\ (exists st,
        run_all_tests (same_name_first_fails false) [] [] = Terminated st
        /\ map position (calls st) = [0%nat]
        /\ world st = [ev_body 1])
  /\ (exists st,
        run_all_tests same_name_both_return [] [] = Finished st
        /\ map position (calls st) = [0; 1; 2]%nat
        /\ world st = [ev_body 0; ev_body 1; ev_body 2]
        /\ failures st = 0).
Proof.
  split; [reflexivity|].
  split; eexists; (split; [reflexivity|]); repeat split.
Qed.

(** C1, at a failed assertion. The assertion macros are the [assert] of
    [<cassert>]: when [ASSERT_EQ(1, 2)] fails in the first of two
    registered tests, the process is terminated inside that body; the
    second body is never invoked, no failure line is printed and
    [run_all_tests] returns no count. With [NDEBUG] defined the
    assertion is no statement at all: the failing body runs on to its
    end and the count returned is 0. *)
Theorem failed_assertion_terminates_run :
  (exists st,
      run_all_tests (failing_then_passing false) [] [] = Terminated st
      /\ map position (calls st) = [0%nat]
      /\ world st = [ev_body 1]
      /\ cout st = [])
  /\ (exists st,
        run_all_tests (failing_then_passing true) [] [] = Finished st
        /\ map position (calls st) = [0; 1]%nat
        /\ world st = [ev_body 1; ev_body 11; ev_body 2]
        /\ failures st = 0).
Proof. split; eexists; (split; [reflexivity|]); repeat split. Qed.

(** A body that throws, by contrast, is caught: the next body runs and
    the count is 1. *)
Example thrown_exception_is_isolated :
  exists st,
    run_all_tests throwing_then_passing [] [] = Finished st
    /\ map position (calls st) = [0; 1]%nat
    /\ world st = [ev_body 1; ev_body 2]
    /\ failures st = 1
    /\ cout st = (lit "[ FAIL ] Suite.Throws: boom" ++ endl)
                   ++ (lit "[ PASS ] Suite.Passes" ++ endl).
Proof. eexists. split; [reflexivity|]. repeat split. Qed.

(** C2, at a failing body. [TestFunc] calls [TearDown] after [TestBody]
    with nothing that would run it when the body does not return: when
    the body of a fixture test throws, the runner reports the failure
    and goes on to the next test, and the teardown has not run; when the
    body fails an assertion, the process is terminated and the teardown
    has not run either. *)
Theorem teardown_skipped_when_body_fails :
  (exists st,
      run_all_tests fixture_throws [] [] = Finished st
      /\ failures st = 1
      /\ world st = [ev_setup; ev_body 1; ev_body 2])
  /\ (exists st,
        run_all_tests (fixture_assert_fails false) [] [] = Terminated st
        /\ world st = [ev_setup; ev_body 1]).
Proof. split; eexists; (split; [reflexivity|]); repeat split. Qed.

(** When the body returns, the teardown runs after it. *)
Example teardown_runs_when_body_returns :
  TestFunc Traced (log (ev_body 1)) [] = Returned [ev_setup; ev_body 1; ev_teardown].
Proof. reflexivity. Qed.

End RunnerSamples.

(** ** The text value: rendering, concatenation, comparison *)

Section TextOperations.

Import Text.

Lemma uint_digits (d : Decimal.uint) :
  forallb isdigit (lit (NilEmpty.string_of_uint d)) = true.
Proof. induction d; simpl; auto. Qed.

Lemma uint_fold_acc (d : Decimal.uint) : forall acc : positive,
  fold_left (fun acc c => 10 * acc + digit_val c)
            (lit (NilEmpty.string_of_uint d)) (Z.pos acc) =
    Z.pos (Pos.of_uint_acc d acc).
Proof.
  induction d; intros acc;
    cbn [NilEmpty.string_of_uint lit list_ascii_of_string fold_left Pos.of_uint_acc];
    [reflexivity|..].
  all: fold (lit (NilEmpty.string_of_uint d)); rewrite <- IHd; f_equal;
    vm_compute digit_val; lia.
Qed.

Lemma uint_fold (d : Decimal.uint) :
  fold_left (fun acc c => 10 * acc + digit_val c)
            (lit (NilEmpty.string_of_uint d)) 0 = Z.of_N (Pos.of_uint d).
Proof.
  induction d;
    cbn [NilEmpty.string_of_uint lit list_ascii_of_string fold_left Pos.of_uint];
    [reflexivity|..].
  all: fold (lit (NilEmpty.string_of_uint d)).
  1: exact IHd.
  all: cbn [Z.of_N]; rewrite <- uint_fold_acc; f_equal.
Qed.

Lemma pos_digits (p : positive) :
  let ds := lit (NilZero.string_of_uint (Pos.to_uint p)) in
  forallb isdigit ds = true /\ ds <> [] /\ digits_value ds = Z.pos p.
Proof.
  cbv zeta. pose proof (DecimalPos.Unsigned.to_uint_nonnil p) as Hn.
  pose proof (DecimalPos.Unsigned.of_to p) as Hof.
  assert (E : NilZero.string_of_uint (Pos.to_uint p) =
              NilEmpty.string_of_uint (Pos.to_uint p)).
  { destruct (Pos.to_uint p); [congruence|reflexivity..]. }
  rewrite E. split; [apply uint_digits|]. split.
  - destruct (Pos.to_uint p); [congruence|discriminate..].
  - unfold digits_value. now rewrite uint_fold, Hof.
Qed.

(** X1. A number rendered as text reads back as itself: for every [int]
    [val], [String(val).toInt()] is [val]. *)
Theorem String_of_int_toInt (val : Z) :
  INT_MIN <= val <= INT_MAX -> toInt (String_of_int val) = val.
Proof.
  intros Hr. unfold toInt, String_of_int, to_string. cbn [content].
  destruct val as [|p|p].
  - reflexivity.
  - destruct (pos_digits p) as (Hd & Hne & Hv). cbv zeta in Hd, Hne, Hv.
    cbn [Z.to_int NilZero.string_of_int].
    pose proof (stoi_leading_integer [] _ [] no_sign eq_refl Hd Hne eq_refl) as H.
    cbn [app sign_bytes] in H. rewrite app_nil_r in H. rewrite H. cbv zeta.
    cbn [apply_sign]. rewrite Hv.
    destruct (Z.leb_spec INT_MIN (Z.pos p)); [|lia].
    destruct (Z.leb_spec (Z.pos p) INT_MAX); [|lia]. reflexivity.
  - destruct (pos_digits p) as (Hd & Hne & Hv). cbv zeta in Hd, Hne, Hv.
    cbn [Z.to_int NilZero.string_of_int].
    pose proof (stoi_leading_integer [] _ [] minus_sign eq_refl Hd Hne eq_refl) as H.
    cbn [app sign_bytes lit list_ascii_of_string] in H. rewrite app_nil_r in H.
    cbn [lit list_ascii_of_string]. unfold lit in H. rewrite H. cbv zeta.
    cbn [apply_sign]. unfold lit in Hv. rewrite Hv.
    change (- Z.pos p) with (Z.neg p).
    destruct (Z.leb_spec INT_MIN (Z.neg p)); [|lia].
    destruct (Z.leb_spec (Z.neg p) INT_MAX); [|lia]. reflexivity.
Qed.

Lemma String_of_int_toInt_witness :
  INT_MIN <= -2147483648 <= INT_MAX
  /\ toInt (String_of_int (-2147483648)) = -2147483648.
Proof.
  assert (H : INT_MIN <= -2147483648 <= INT_MAX) by (vm_compute; split; discriminate).
  split; [exact H|]. exact (String_of_int_toInt (-2147483648) H).
Defined.

(** *** Texts without a NUL byte *)

Lemma nul_free_c_str (s : std_string) : nul_free s = true -> c_str s = s.
Proof.
  intros H. pose proof (c_str_app s [] H) as E.
  now rewrite !app_nil_r in E.
Qed.

Lemma c_str_nul_free (s : std_string) : nul_free (c_str s) = true.
Proof.
  induction s as [|c r IH]; simpl; [reflexivity|].
  destruct (code c =? 0) eqn:E; [reflexivity|].
  unfold nul_free in *. simpl. now rewrite E, IH.
Qed.

Lemma c_str_idem (s : std_string) : c_str (c_str s) = c_str s.
Proof. apply nul_free_c_str, c_str_nul_free. Qed.

Lemma nul_free_app (a b : std_string) :
  nul_free (a ++ b) = nul_free a && nul_free b.
Proof. apply forallb_app. Qed.

Lemma nul_free_take_drop (s : std_string) (n : nat) :
  nul_free s = true -> nul_free (take n s) = true /\ nul_free (drop n s) = true.
Proof.
  intros H. rewrite <- (take_drop n s), nul_free_app in H.
  now apply andb_true_iff in H.
Qed.

Lemma length_is_size (this : String) :
  size (content this) <= INT_MAX -> length this = size (content this).
Proof.
  intros H. unfold length. apply to_int_id.
  pose proof (size_nonneg (content this)). unfold INT_MIN. lia.
Qed.

(** [substring] on a text without a NUL byte whose length fits an [int]. *)
Lemma substring_nul_free (this : String) (start end_ : Z) :
  nul_free (content this) = true -> size (content this) <= INT_MAX ->
  substring this start end_ =
    Ok (mkString
          (take (Z.to_nat (spec_clamp_end this end_ - spec_clamp_start start))
                (drop (Z.to_nat (spec_clamp_start start)) (content this)))).
Proof.
  intros Hnf Hsz.
  destruct (Z.le_gt_cases (spec_clamp_end this end_) (spec_clamp_start start))
    as [Hle|Hlt].
  - rewrite substring_empty_range by assumption.
    replace (Z.to_nat (spec_clamp_end this end_ - spec_clamp_start start))
      with O by lia.
    reflexivity.
  - destruct (substring_reaches_substr this start end_ Hlt) as (Heq & Hs0 & HeL).
    rewrite (length_is_size this Hsz) in HeL.
    destruct (substr_in_range (content this) (spec_clamp_start start)
                (spec_clamp_end this end_ - spec_clamp_start start))
      as (r & Hr & _ & Hdef); [lia|lia|].
    rewrite Heq, Hr. cbn. unfold String_of_cstr. rewrite Hdef.
    rewrite nul_free_c_str; [reflexivity|].
    apply nul_free_take_drop. now apply nul_free_take_drop.
Qed.

(** X2. On a text without a NUL byte whose length fits an [int],
    [substring] returns exactly the bytes of the clamped range, and the
    length of the result is exactly [max 0 (clamp end_ - clamp start)]. *)
Theorem substring_exact (this : String) (start end_ : Z) :
  nul_free (content this) = true -> size (content this) <= INT_MAX ->
  exists r : String,
    substring this start end_ = Ok r
    /\ content r =
         take (Z.to_nat (spec_clamp_end this end_ - spec_clamp_start start))
              (drop (Z.to_nat (spec_clamp_start start)) (content this))
    /\ length r = Z.max 0 (spec_clamp_end this end_ - spec_clamp_start start).
Proof.
  intros Hnf Hsz. eexists. split; [now apply substring_nul_free|].
  split; [reflexivity|].
  assert (HeL : spec_clamp_end this end_ <= size (content this)).
  { unfold spec_clamp_end. rewrite (length_is_size this Hsz).
    destruct (end_ =? -1); [lia|]. destruct (Z.gtb_spec end_ (size (content this))); lia. }
  assert (Hs0 : 0 <= spec_clamp_start start) by (unfold spec_clamp_start; lia).
  rewrite length_is_size; cbn [content]; unfold size in *;
    rewrite length_take, length_drop; lia.
Qed.

Lemma substring_exact_witness :
  nul_free (lit "firmware") = true
  /\ size (lit "firmware") <= INT_MAX
  /\ exists r : String,
       substring (mkString (lit "firmware")) 4 99 = Ok r
       /\ content r = lit "ware" /\ length r = 4.
Proof.
  assert (H1 : nul_free (content (mkString (lit "firmware"))) = true) by reflexivity.
  assert (H2 : size (content (mkString (lit "firmware"))) <= INT_MAX)
    by (vm_compute; discriminate).
  split; [exact H1|]. split; [exact H2|].
  destruct (substring_exact (mkString (lit "firmware")) 4 99 H1 H2)
    as (r & Hr & Hc & Hl).
  exists r. split; [exact Hr|]. split; [exact Hc|exact Hl].
Defined.

(** X3. Cutting a text at any position [k >= 0] and joining the two parts
    gives the text back: [substring(0, k)] is the first [k] bytes,
    [substring(k)] the bytes from [k] on, and [substring(0, k) +
    substring(k)] is the text itself; with [k] at or beyond the end the
    first part is the whole text and the second part is empty (for a
    text without a NUL byte whose length fits an [int]). *)
Theorem substring_split_rejoin (this : String) (k : Z) :
  nul_free (content this) = true -> size (content this) <= INT_MAX -> 0 <= k ->
  exists a b : String,
    substring this 0 k = Ok a /\ substring this k (-1) = Ok b
    /\ content a = take (Z.to_nat k) (content this)
    /\ content b = drop (Z.to_nat k) (content this)
    /\ plus a b = this
    /\ (size (content this) <= k -> a = this /\ b = mkString []).
Proof.
  intros Hnf Hsz Hk.
  assert (Ha : substring this 0 k =
               Ok (mkString (take (Z.to_nat k) (content this)))).
  { rewrite substring_nul_free by assumption. do 2 f_equal.
    unfold spec_clamp_end, spec_clamp_start.
    rewrite (length_is_size this Hsz).
    destruct (Z.eqb_spec k (-1)); [lia|].
    rewrite Z.max_l by lia. change (Z.to_nat 0) with O. rewrite drop_0.
    unfold size in *.
    destruct (Z.gtb_spec k (Z.of_nat (List.length (content this)))) as [Hgt|Hle].
    - rewrite !take_ge by lia. reflexivity.
    - f_equal. lia. }
  assert (Hb : substring this k (-1) =
               Ok (mkString (drop (Z.to_nat k) (content this)))).
  { rewrite substring_nul_free by assumption. do 2 f_equal.
    unfold spec_clamp_end, spec_clamp_start.
    rewrite (length_is_size this Hsz).
    change (-1 =? -1) with true. cbv iota. rewrite Z.max_r by lia.
    apply take_ge. rewrite length_drop. unfold size. lia. }
  exists (mkString (take (Z.to_nat k) (content this))),
         (mkString (drop (Z.to_nat k) (content this))).
  split; [exact Ha|]. split; [exact Hb|].
  split; [reflexivity|]. split; [reflexivity|]. split.
  - unfold plus. cbn [content]. rewrite take_drop. now destruct this.
  - intros Hbig. unfold size in Hbig.
    rewrite take_ge by lia. rewrite drop_ge by lia.
    split; [now destruct this|reflexivity].
Qed.

Lemma substring_split_rejoin_witness :
  let this := mkString (lit "key=value") in
  nul_free (content this) = true
  /\ size (content this) <= INT_MAX /\ 0 <= 3 /\ size (content this) <= 12
  /\ substring this 0 3 = Ok (mkString (lit "key"))
  /\ substring this 3 (-1) = Ok (mkString (lit "=value"))
  /\ plus (mkString (lit "key")) (mkString (lit "=value")) = this
  /\ substring this 0 12 = Ok this
  /\ substring this 12 (-1) = Ok (mkString []).
Proof.
  cbv zeta.
  assert (H1 : nul_free (content (mkString (lit "key=value"))) = true) by reflexivity.
  assert (H2 : size (content (mkString (lit "key=value"))) <= INT_MAX)
    by (vm_compute; discriminate).
  assert (H3 : 0 <= 3) by lia.
  assert (H4 : 0 <= 12) by lia.
  assert (H5 : size (content (mkString (lit "key=value"))) <= 12)
    by (vm_compute; discriminate).
  destruct (substring_split_rejoin (mkString (lit "key=value")) 3 H1 H2 H3)
    as (a & b & Ha & Hb & Hca & Hcb & Hj & _).
  destruct (substring_split_rejoin (mkString (lit "key=value")) 12 H1 H2 H4)
    as (a' & b' & Ha' & Hb' & _ & _ & _ & Hend).
  destruct (Hend H5) as [-> ->].
  destruct a as [ca], b as [cb]. cbn [content] in Hca, Hcb. subst ca cb.
  repeat (split; [assumption|]). exact Hb'.
Defined.

(** X4. What [indexOf] finds, [substring] cuts out: when
    [indexOf(needle, fromIndex)] answers a position [p] other than -1,
    [substring(p, p + needle.length())] is the needle (for a needle
    without a NUL byte, a start index that is not negative and a text
    whose length fits an [int]). *)
Theorem indexOf_then_substring (this str : String) (fromIndex : Z) :
  0 <= fromIndex <= INT_MAX ->
  size (content this) <= INT_MAX ->
  nul_free (content str) = true ->
  indexOf this str fromIndex <> -1 ->
  substring this (indexOf this str fromIndex)
            (indexOf this str fromIndex + length str) = Ok str.
Proof.
  intros Hfrom Hsz Hnf Hfound.
  pose proof (find_first_occurrence (content this) (content str) fromIndex
                ltac:(lia) Hsz) as Hspec.
  unfold indexOf in *. rewrite to_size_t_id in * by (unfold INT_MAX in Hfrom; lia).
  set (p := index_result (find (content this) (content str) fromIndex)) in *.
  destruct Hspec as [[Hm _]|(Hge & (Hp0 & Hfit & Htake) & _)]; [contradiction|].
  pose proof (size_nonneg (content str)) as Hn0.
  assert (Hlen : length str = size (content str)) by (apply length_is_size; lia).
  rewrite Hlen.
  assert (Hcs : spec_clamp_start p = p) by (unfold spec_clamp_start; lia).
  assert (Hce : spec_clamp_end this (p + size (content str)) = p + size (content str)).
  { unfold spec_clamp_end. rewrite (length_is_size this Hsz).
    destruct (Z.eqb_spec (p + size (content str)) (-1)); [lia|].
    destruct (Z.gtb_spec (p + size (content str)) (size (content this))); [lia|].
    reflexivity. }
  destruct str as [needle]. cbn [content] in *.
  destruct (Z.eq_dec (size needle) 0) as [Hz|Hnz].
  - rewrite substring_empty_range by lia.
    destruct needle; [reflexivity|]. unfold size in Hz. simpl in Hz. lia.
  - destruct (substring_reaches_substr this p (p + size needle)) as (Heq & _ & _);
      [lia|].
    rewrite Heq, Hcs, Hce.
    destruct (substr_in_range (content this) p (p + size needle - p))
      as (r & Hr & _ & Hdef); [lia|lia|].
    rewrite Hr. cbn. unfold String_of_cstr. do 2 f_equal. rewrite Hdef.
    replace (Z.to_nat (p + size needle - p)) with (List.length needle)
      by (unfold size; lia).
    rewrite Htake. now apply nul_free_c_str.
Qed.

Lemma indexOf_then_substring_witness :
  let this := mkString (lit "GET /status HTTP/1.1") in
  let str := mkString (lit "/status") in
  0 <= 2 <= INT_MAX
  /\ size (content this) <= INT_MAX
  /\ nul_free (content str) = true
  /\ indexOf this str 2 <> -1
  /\ substring this 4 11 = Ok str.
Proof.
  cbv zeta.
  assert (H1 : 0 <= 2 <= INT_MAX) by (vm_compute; split; discriminate).
  assert (H2 : size (content (mkString (lit "GET /status HTTP/1.1"))) <= INT_MAX)
    by (vm_compute; discriminate).
  assert (H3 : nul_free (content (mkString (lit "/status"))) = true) by reflexivity.
  assert (H4 : indexOf (mkString (lit "GET /status HTTP/1.1"))
                       (mkString (lit "/status")) 2 <> -1)
    by (vm_compute; discriminate).
  repeat (split; [assumption|]).
  exact (indexOf_then_substring _ _ 2 H1 H2 H3 H4).
Defined.

(** X5. Concatenation: when the joined length fits an [int], the length
    of [a + b] is the sum of the two lengths, and indexing [a + b] reads
    [a] below [a.length()] and [b] from there on; an index outside the
    joined text reads NUL. *)
Theorem plus_length_and_index (a b : String) (i : Z) :
  size (content a) + size (content b) <= INT_MAX ->
  length (plus a b) = length a + length b
  /\ index (plus a b) i =
       (if i <? length a then index a i else index b (i - length a))
  /\ (i < 0 \/ length a + length b <= i -> index (plus a b) i = zero).
Proof.
  intros Hsz.
  pose proof (size_nonneg (content a)) as Ha0.
  pose proof (size_nonneg (content b)) as Hb0.
  assert (Ha : length a = size (content a)) by (apply length_is_size; lia).
  assert (Hb : length b = size (content b)) by (apply length_is_size; lia).
  assert (Hab : length (plus a b) = size (content a) + size (content b)).
  { rewrite length_is_size; unfold plus; cbn [content]; unfold size in *;
      rewrite length_app; lia. }
  rewrite Ha, Hb. split; [exact Hab|].
  unfold index. rewrite Hab, Ha, Hb. unfold plus. cbn [content]. split.
  - destruct (Z.ltb_spec i 0) as [Hneg|Hpos]; cbn [orb].
    + destruct (Z.ltb_spec i (size (content a))); [reflexivity|lia].
    + destruct (Z.ltb_spec i (size (content a))) as [Hlt|Hge].
      * destruct (Z.geb_spec i (size (content a) + size (content b))); [lia|].
        destruct (Z.geb_spec i (size (content a))); [lia|].
        apply app_nth1. unfold size in *. lia.
      * destruct (Z.ltb_spec (i - size (content a)) 0); [lia|]. cbn [orb].
        destruct (Z.geb_spec i (size (content a) + size (content b)));
          destruct (Z.geb_spec (i - size (content a)) (size (content b)));
          try lia; [reflexivity|].
        rewrite app_nth2 by (unfold size in *; lia).
        f_equal. unfold size. lia.
  - intros [Hneg|Hbig].
    + destruct (Z.ltb_spec i 0); [reflexivity|lia].
    + destruct (Z.geb_spec i (size (content a) + size (content b))); [|lia].
      now rewrite orb_true_r.
Qed.

Lemma plus_length_and_index_witness :
  let a := mkString (lit "pin") in
  let b := mkString (lit "13") in
  size (content a) + size (content b) <= INT_MAX
  /\ length (plus a b) = 5
  /\ index (plus a b) 3 = "1"%char
  /\ index (plus a b) 5 = zero.
Proof.
  cbv zeta.
  assert (H : size (content (mkString (lit "pin")))
              + size (content (mkString (lit "13"))) <= INT_MAX)
    by (vm_compute; discriminate).
  split; [exact H|].
  destruct (plus_length_and_index (mkString (lit "pin")) (mkString (lit "13")) 3 H)
    as (Hl & Hi & _).
  destruct (plus_length_and_index (mkString (lit "pin")) (mkString (lit "13")) 5 H)
    as (_ & _ & Ho).
  split; [exact Hl|]. split; [exact Hi|]. apply Ho. right. vm_compute. discriminate.
Defined.

(** X6. Comparing a text with a C string compares the whole content with
    the bytes of the C string before its NUL: the two are equal exactly
    when the text holds no NUL byte and its own C-string view is that of
    the argument. A text that holds a NUL byte equals no C string, and a
    text built from a C string equals it. *)
Theorem equals_cstr_iff (this : String) (str : std_string) :
  (equals_cstr this str = true <->
   nul_free (content this) = true /\ String_c_str this = c_str str)
  /\ equals_cstr (String_of_cstr str) str = true
  /\ equals_cstr this str = equals this (String_of_cstr str).
Proof.
  unfold equals_cstr, equals, String_c_str, String_of_cstr. cbn [content].
  split; [|split; [now apply bool_decide_eq_true|reflexivity]].
  rewrite bool_decide_eq_true. split.
  - intros ->. split; [apply c_str_nul_free|apply c_str_idem].
  - intros [Hnf Heq]. now rewrite nul_free_c_str in Heq.
Qed.

Example equals_cstr_with_nul :
  let s := append_cstr (append_char (String_of_cstr (lit "ab")) zero) (lit "cd") in
  equals_cstr s (lit "ab") = false
  /\ String_c_str s = lit "ab"
  /\ equals_cstr (String_of_cstr (lit "ab")) (lit "ab") = true.
Proof. repeat split. Qed.

End TextOperations.

(** ** Delays, the clock and the console transcript *)

Section StubsMore.

Import Arduino Samples.

Lemma requested_delays_snoc (cs : list call) (c : call) :
  requested_delays (cs ++ [c]) =
    requested_delays cs ++ match c with call_delay m => [m] | _ => [] end.
Proof.
  induction cs as [|a cs IH]; simpl.
  - now destruct c.
  - rewrite IH. now destruct a.
Qed.

Lemma print_log_snoc (cs : list call) (c : call) :
  print_log (cs ++ [c]) =
    print_log cs ++ match c with
                    | call_print s => [Text.content s]
                    | call_print_int v => [to_string v]
                    | _ => []
                    end.
Proof.
  induction cs as [|a cs IH]; simpl.
  - now destruct c.
  - rewrite IH. now destruct a.
Qed.

Lemma println_log_snoc (cs : list call) (c : call) :
  println_log (cs ++ [c]) =
    println_log cs ++ match c with
                      | call_println s => [Text.content s]
                      | call_println_int v => [to_string v]
                      | _ => []
                      end.
Proof.
  induction cs as [|a cs IH]; simpl.
  - now destruct c.
  - rewrite IH. now destruct a.
Qed.

Lemma transcript_snoc (cs : list call) (c : call) :
  transcript (cs ++ [c]) =
    transcript cs ++ match c with
                     | call_print s => Text.content s
                     | call_println s => Text.content s ++ endl
                     | _ => []
                     end.
Proof.
  induction cs as [|a cs IH]; simpl.
  - destruct c; simpl; now rewrite ?app_nil_r.
  - rewrite IH. destruct a; try reflexivity; now rewrite <- !app_assoc.
Qed.

Lemma count_calls_snoc (f : call -> bool) (cs : list call) (c : call) :
  count_calls f (cs ++ [c]) = count_calls f cs + (if f c then 1 else 0).
Proof.
  unfold count_calls. rewrite List.filter_app, length_app. simpl.
  destruct (f c); simpl; lia.
Qed.

Lemma digitalRead_keeps_rest (p : Z) (w : World) :
  mock_delay_calls (snd (digitalRead p w)) = mock_delay_calls w
  /\ Serial (snd (digitalRead p w)) = Serial w
  /\ start_time (snd (digitalRead p w)) = start_time w.
Proof. unfold digitalRead. now destruct (pin_states w !! p). Qed.

(** Everything the stubs record, after any calls that follow a reset. *)
Lemma run_after_reset_records (cs : list call) (now : Z) (w : World) :
  let w' := run cs (reset_arduino_stubs now w) in
  let recent := since_reset cs in
  map ms (mock_delay_calls w') = map to_ulong (requested_delays recent)
  /\ print_calls (Serial w') = print_log recent
  /\ println_calls (Serial w') = println_log recent
  /\ outputBuffer (Serial w') = transcript recent
  /\ print_call_count (Serial w') = count_calls is_print recent
  /\ println_call_count (Serial w') = count_calls is_println recent.
Proof.
  induction cs as [|c cs IH] using rev_ind; cbv zeta.
  - repeat split.
  - cbv zeta in IH. destruct IH as (Hd & Hp & Hl & Hb & Hpc & Hlc).
    rewrite run_snoc, since_reset_snoc.
    set (w1 := run cs (reset_arduino_stubs now w)) in *.
    destruct c; simpl is_reset; cbv iota; [repeat split|..].
    all: rewrite requested_delays_snoc, print_log_snoc, println_log_snoc,
           transcript_snoc, !count_calls_snoc.
    all: cbn [is_print is_println].
    all: rewrite ?app_nil_r, ?Z.add_0_r.
    all: simpl step.
    all: try match goal with
             | |- context [digitalRead ?p ?w0] =>
                 destruct (digitalRead_keeps_rest p w0) as (-> & -> & _)
             end.
    all: unfold pinMode.
    all: cbn [mock_delay_calls Serial print_calls println_calls outputBuffer
              print_call_count println_call_count with_Serial with_cout
              digitalWrite delay pinMode print_String println_String print_int
              println_int Serial_print_bytes Serial_println_bytes].
    all: rewrite ?map_app, ?Hd, ?Hp, ?Hl, ?Hb, ?Hpc, ?Hlc.
    all: repeat split; try reflexivity.
    now rewrite <- app_assoc.
Qed.

Lemma to_ulong_nonneg (l : list Z) :
  Forall (fun m => 0 <= m <= INT_MAX) l -> map to_ulong l = l.
Proof.
  induction 1 as [|m l Hm _ IH]; simpl; [reflexivity|].
  rewrite IH. f_equal. unfold to_ulong, INT_MAX in *. apply Z.mod_small. lia.
Qed.

(** X7. The delay log after any calls that follow a reset holds the
    delays requested since the last reset, one entry per call, in call
    order, each converted to [unsigned long]; when no requested delay is
    negative the entries are the requested values themselves. *)
Theorem delay_log_since_reset (cs : list call) (now : Z) (w : World) :
  let w' := run cs (reset_arduino_stubs now w) in
  let recent := since_reset cs in
  List.length (mock_delay_calls w') = List.length (requested_delays recent)
  /\ map ms (mock_delay_calls w') = map to_ulong (requested_delays recent)
  /\ (Forall (fun m => 0 <= m <= INT_MAX) (requested_delays recent) ->
      map ms (mock_delay_calls w') = requested_delays recent).
Proof.
  cbv zeta. destruct (run_after_reset_records cs now w) as (Hd & _).
  cbv zeta in Hd. split; [|split; [exact Hd|]].
  - apply (f_equal (@List.length Z)) in Hd. now rewrite !length_map in Hd.
  - intros Hall. rewrite Hd. now apply to_ulong_nonneg.
Qed.

Lemma delay_log_since_reset_witness :
  let w' := run sample_calls (reset_arduino_stubs 0 sample_world) in
  Forall (fun m => 0 <= m <= INT_MAX) (requested_delays (since_reset sample_calls))
  /\ map ms (mock_delay_calls w') = [10].
Proof.
  cbv zeta.
  assert (H : Forall (fun m => 0 <= m <= INT_MAX)
                (requested_delays (since_reset sample_calls))).
  { repeat constructor; vm_compute; discriminate. }
  split; [exact H|].
  destruct (delay_log_since_reset sample_calls 0 sample_world) as (_ & _ & Hpos).
  cbv zeta in Hpos. exact (Hpos H).
Defined.

(** A negative request is logged as a value near the top of the
    [unsigned long] range. *)
Example delay_negative :
  map ms (mock_delay_calls (delay (-1) (reset_arduino_stubs 0 sample_world)))
    = [18446744073709551615].
Proof. reflexivity. Qed.

Lemma step_keeps_start_time (c : call) (w : World) :
  is_reset c = false -> start_time (step c w) = start_time w.
Proof.
  destruct c; simpl; try reflexivity; try discriminate.
  intros _. apply digitalRead_keeps_rest.
Qed.

Lemma run_keeps_start_time (cs : list call) (w : World) :
  existsb is_reset cs = false -> start_time (run cs w) = start_time w.
Proof.
  revert w. induction cs as [|c cs IH]; intros w H; [reflexivity|].
  simpl in H. apply orb_false_iff in H. destruct H as [Hc Hcs].
  change (run (c :: cs) w) with (run cs (step c w)).
  rewrite IH by assumption. now apply step_keeps_start_time.
Qed.

(** X8. The clock counts from the last reset and no call moves it: after a
    reset at instant [now0] and any calls other than a reset (delays
    included), [millis] read at [now0] is 0, read at a later instant [t] it
    is the whole number of milliseconds from [now0] to [t], and it never
    goes back. Instants are in nanoseconds. *)
Theorem millis_since_reset (cs : list call) (now0 t1 t2 : Z) (w : World) :
  existsb is_reset cs = false ->
  now0 <= t1 <= t2 -> t2 - now0 < 2 ^ 64 * 1000000 ->
  let w' := run cs (reset_arduino_stubs now0 w) in
  millis now0 w' = 0
  /\ millis t1 w' = (t1 - now0) / 1000000
  /\ millis t1 w' <= millis t2 w'.
Proof.
  intros Hcs Ht Hbound. cbv zeta. unfold millis.
  rewrite run_keeps_start_time by assumption. cbn [start_time reset_arduino_stubs].
  assert (Hml : forall t, now0 <= t <= t2 ->
                  to_ulong ((t - now0) ÷ 1000000) = (t - now0) / 1000000).
  { intros t Hr. rewrite Z.quot_div_nonneg by lia.
    unfold to_ulong. apply Z.mod_small. split.
    - apply Z.div_pos; lia.
    - apply Z.div_lt_upper_bound; lia. }
  rewrite !Hml by lia. split; [|split; [reflexivity|]].
  - now rewrite Z.sub_diag.
  - apply Z.div_le_mono; lia.
Qed.

Lemma millis_since_reset_witness :
  let cs := [call_delay 5000; call_digitalWrite 13 1] in
  existsb is_reset cs = false
  /\ 1000 <= 2500000 <= 7000000 /\ 7000000 - 1000 < 2 ^ 64 * 1000000
  /\ millis 1000 (run cs (reset_arduino_stubs 1000 sample_world)) = 0
  /\ millis 2500000 (run cs (reset_arduino_stubs 1000 sample_world)) = 2
  /\ millis 7000000 (run cs (reset_arduino_stubs 1000 sample_world)) = 6.
Proof.
  cbv zeta.
  assert (H1 : existsb is_reset [call_delay 5000; call_digitalWrite 13 1] = false)
    by reflexivity.
  assert (H2 : 1000 <= 2500000 <= 7000000) by lia.
  assert (H3 : 7000000 - 1000 < 2 ^ 64 * 1000000) by (vm_compute; reflexivity).
  split; [exact H1|]. split; [exact H2|]. split; [exact H3|].
  destruct (millis_since_reset [call_delay 5000; call_digitalWrite 13 1]
              1000 2500000 7000000 sample_world H1 H2 H3) as (H0 & Ht & _).
  cbv zeta in H0, Ht. split; [exact H0|]. split; [exact Ht|]. reflexivity.
Defined.

(** X9. The console after any calls that follow a reset: the per-call log
    of [print] holds the rendered fragment of every [print] call since the
    last reset (text and integer forms), in call order, and likewise for
    [println]; the output buffer is the concatenation, in call order, of
    the fragments of the text-form calls only, each [println] fragment
    followed by a newline. *)
Theorem console_logs_and_transcript (cs : list call) (now : Z) (w : World) :
  let w' := run cs (reset_arduino_stubs now w) in
  let recent := since_reset cs in
  print_calls (Serial w') = print_log recent
  /\ println_calls (Serial w') = println_log recent
  /\ outputBuffer (Serial w') = transcript recent.
Proof.
  cbv zeta. destruct (run_after_reset_records cs now w) as (_ & Hp & Hl & Hb & _).
  cbv zeta in Hp, Hl, Hb. auto.
Qed.

Lemma print_log_length (cs : list call) :
  Z.of_nat (List.length (print_log cs)) =
    count_calls is_print cs + count_calls is_print_int cs.
Proof.
  unfold count_calls. induction cs as [|c cs IH]; [reflexivity|].
  destruct c; simpl; lia.
Qed.

Lemma println_log_length (cs : list call) :
  Z.of_nat (List.length (println_log cs)) =
    count_calls is_println cs + count_calls is_println_int cs.
Proof.
  unfold count_calls. induction cs as [|c cs IH]; [reflexivity|].
  destruct c; simpl; lia.
Qed.

(** X10. The console call counters after any calls that follow a reset:
    each counts the text-form calls since the last reset, so that it falls
    short of the length of its per-call log by the number of integer-form
    calls. *)
Theorem console_counters (cs : list call) (now : Z) (w : World) :
  let w' := run cs (reset_arduino_stubs now w) in
  let recent := since_reset cs in
  print_call_count (Serial w') = count_calls is_print recent
  /\ println_call_count (Serial w') = count_calls is_println recent
  /\ Z.of_nat (List.length (print_calls (Serial w'))) =
       print_call_count (Serial w') + count_calls is_print_int recent
  /\ Z.of_nat (List.length (println_calls (Serial w'))) =
       println_call_count (Serial w') + count_calls is_println_int recent.
Proof.
  cbv zeta.
  destruct (run_after_reset_records cs now w) as (_ & Hp & Hl & _ & Hpc & Hlc).
  cbv zeta in Hp, Hl, Hpc, Hlc.
  rewrite Hp, Hl, Hpc, Hlc, print_log_length, println_log_length. auto.
Qed.

Lemma begin_all_snoc (bauds : list Z) (baud : Z) (s : SerialClass) :
  begin_all (bauds ++ [baud]) s = Serial_begin baud (begin_all bauds s).
Proof. unfold begin_all. now rewrite fold_left_app. Qed.

(** X11. [Serial.begin] called any number of times: the begin counter
    grows by the number of calls, the recorded baud rate is that of the
    last call (unchanged when there is none), and the logs, the buffer
    and the other counters are not touched. *)
Theorem begin_counts_and_keeps_last (bauds : list Z) (s : SerialClass) :
  let s' := begin_all bauds s in
  begin_call_count s' = begin_call_count s + Z.of_nat (List.length bauds)
  /\ begin_baud s' = List.last bauds (begin_baud s)
  /\ last_baud_rate s' = List.last bauds (last_baud_rate s)
  /\ print_calls s' = print_calls s /\ println_calls s' = println_calls s
  /\ outputBuffer s' = outputBuffer s
  /\ print_call_count s' = print_call_count s
  /\ println_call_count s' = println_call_count s.
Proof.
  cbv zeta. induction bauds as [|b bauds IH] using rev_ind.
  - simpl. repeat split. lia.
  - destruct IH as (H1 & H2 & H3 & H4 & H5 & H6 & H7 & H8).
    rewrite begin_all_snoc, !last_last, length_app. simpl.
    rewrite H1. repeat split; try assumption. lia.
Qed.

End StubsMore.

(** ** The network client over a sequence of calls *)

Section NetworkMore.

Import HTTP.

Lemma http_run_snoc (cs : list http_call) (c : http_call) (h : HTTPClient) :
  http_run (cs ++ [c]) h = http_step c (http_run cs h).
Proof. unfold http_run. now rewrite fold_left_app. Qed.

Lemma http_since_reset_snoc (cs : list http_call) (c : http_call) :
  http_since_reset (cs ++ [c]) =
    if is_http_reset c then [] else http_since_reset cs ++ [c].
Proof.
  induction cs as [|a cs IH]; simpl.
  - now destruct (is_http_reset c).
  - rewrite existsb_app, IH. simpl. rewrite orb_false_r.
    destruct (is_http_reset c) eqn:Ec.
    + now rewrite orb_true_r.
    + rewrite orb_false_r. destruct (existsb is_http_reset cs); [reflexivity|].
      now destruct (is_http_reset a).
Qed.

Lemma begun_urls_snoc (cs : list http_call) (c : http_call) :
  begun_urls (cs ++ [c]) =
    begun_urls cs ++ match c with hc_begin url => [Text.content url] | _ => [] end.
Proof.
  induction cs as [|a cs IH]; simpl.
  - now destruct c.
  - rewrite IH. now destruct a.
Qed.

(** X12. An [HTTPClient] after a reset and any further calls: the begin
    counter is the number of [begin] calls since the last reset, the
    recorded address is that of the last of them (empty when there is
    none), and [GET] and [getString] still give the defaults 200 and the
    empty text. *)
Theorem http_client_since_reset (cs : list http_call) (h : HTTPClient) :
  let h' := http_run cs (reset h) in
  let recent := http_since_reset cs in
  begin_call_count h' = Z.of_nat (List.length (begun_urls recent))
  /\ begin_url h' = List.last (begun_urls recent) []
  /\ GET h' = 200
  /\ getString h' = Text.mkString [].
Proof.
  induction cs as [|c cs IH] using rev_ind; cbv zeta.
  - repeat split.
  - cbv zeta in IH. destruct IH as (Hn & Hu & Hg & Hs).
    rewrite http_run_snoc, http_since_reset_snoc.
    destruct c; simpl is_http_reset; cbv iota; [repeat split|..].
    all: rewrite begun_urls_snoc, ?app_nil_r; simpl http_step.
    all: try (repeat split; assumption).
    unfold begin, getString, GET in *. cbn [begin_call_count begin_url GET_return
                                            getString_return].
    rewrite last_last, length_app, Hn. simpl. repeat split; try assumption. lia.
Qed.

Lemma http_step_keeps_response (c : http_call) (h : HTTPClient) :
  is_http_reset c = false ->
  GET_return (http_step c h) = GET_return h
  /\ getString_return (http_step c h) = getString_return h.
Proof. destruct c; simpl; try discriminate; auto. Qed.

(** X13. The calls of a request never change the configured response:
    after any calls other than a reset, [GET] returns the code it
    returned before and [getString] the same text, which is the
    configured body up to its first NUL byte. *)
Theorem request_calls_keep_configured_response
    (cs : list http_call) (h : HTTPClient) :
  existsb is_http_reset cs = false ->
  GET (http_run cs h) = GET h
  /\ getString (http_run cs h) = getString h
  /\ Text.content (getString h) = c_str (getString_return h).
Proof.
  intros Hcs.
  assert (H : GET_return (http_run cs h) = GET_return h
              /\ getString_return (http_run cs h) = getString_return h).
  { revert h. induction cs as [|c cs IH]; intros h; [auto|].
    simpl in Hcs. apply orb_false_iff in Hcs. destruct Hcs as [Hc Hcs].
    change (http_run (c :: cs) h) with (http_run cs (http_step c h)).
    destruct (IH Hcs (http_step c h)) as [-> ->].
    now apply http_step_keeps_response. }
  destruct H as [Hg Hs]. unfold GET, getString. rewrite Hg, Hs.
  repeat split. unfold Text.String_of_cstr. cbn. apply c_str_idem.
Qed.

Lemma request_calls_keep_configured_response_witness :
  let h := mkHTTPClient 0 [] 503 (lit "busy" ++ [zero] ++ lit "tail") in
  let cs := [hc_begin (Text.mkString (lit "http://host/a")); hc_setTimeout 500;
             hc_GET; hc_getString; hc_end] in
  existsb is_http_reset cs = false
  /\ GET (http_run cs h) = 503
  /\ getString (http_run cs h) = Text.mkString (lit "busy").
Proof.
  cbv zeta.
  assert (H : existsb is_http_reset
                [hc_begin (Text.mkString (lit "http://host/a")); hc_setTimeout 500;
                 hc_GET; hc_getString; hc_end] = false) by reflexivity.
  split; [exact H|].
  destruct (request_calls_keep_configured_response _
              (mkHTTPClient 0 [] 503 (lit "busy" ++ [zero] ++ lit "tail")) H)
    as (Hg & Hs & _).
  split; [exact Hg|exact Hs].
Defined.

End NetworkMore.

(** ** The flash filesystem over a sequence of calls *)

Section FilesystemMore.

Import SPIFFS.

Lemma readStringUntil_loop_closed (f : File) (terminator : ascii) (fuel : nat) :
  forall (result : std_string) (st : State),
    (Z.to_nat (10 - count st) < fuel)%nat ->
    readStringUntil_loop fuel f terminator result st =
      if Ascii.eqb (read f) terminator
      then (result, mkState (count st + 1) (cout st))
      else (result ++ replicate (Z.to_nat (10 - count st)) (read f),
            mkState (Z.max (count st) 10 + 1) (cout st)).
Proof.
  induction fuel as [|n IH]; intros result st H; [lia|].
  cbn [readStringUntil_loop available].
  destruct (Ascii.eqb (read f) terminator) eqn:E; cbn [negb].
  - now rewrite andb_false_r.
  - rewrite andb_true_r.
    destruct (Z.ltb_spec (count st) 10) as [Hlt|Hge].
    + rewrite IH by (cbn [count]; lia). rewrite ?E. cbn [count cout].
      replace (Z.to_nat (10 - count st))
        with (S (Z.to_nat (10 - (count st + 1)))) by lia.
      cbn [replicate]. rewrite <- app_assoc. cbn [app].
      do 2 f_equal. lia.
    + replace (Z.to_nat (10 - count st)) with O by lia.
      cbn [replicate]. rewrite app_nil_r. do 2 f_equal. lia.
Qed.

Lemma readStringUntil_closed (f : File) (terminator : ascii) (st : State) :
  readStringUntil f terminator st =
    if Ascii.eqb "a" terminator
    then (Text.mkString [], mkState (count st + 1) (cout st))
    else (Text.mkString (replicate (Z.to_nat (10 - count st)) "a"%char),
          mkState (Z.max (count st) 10 + 1) (cout st)).
Proof.
  unfold readStringUntil.
  rewrite readStringUntil_loop_closed by lia.
  change (read f) with "a"%char.
  destruct (Ascii.eqb "a" terminator); [reflexivity|].
  cbn [app]. unfold Text.String_of_cstr. rewrite c_str_idem.
  do 2 f_equal. apply nul_free_c_str.
  unfold nul_free. induction (Z.to_nat (10 - count st)) as [|n IH]; [reflexivity|].
  simpl. exact IH.
Qed.

(** X14. [readStringUntil] reads what is left of the shared ten-byte
    stream: with [k] calls of [available] made before, it returns
    [10 - k] filler bytes (none when [k >= 10]) and the stream is used up
    afterwards; when the terminator is the filler byte itself it returns
    the empty text. It writes nothing to the standard output. *)
Theorem readStringUntil_reads_the_rest (f f' : File) (terminator : ascii) (st : State) :
  let '(line, st') := readStringUntil f terminator st in
  Text.content line =
    (if Ascii.eqb "a" terminator then []
     else replicate (Z.to_nat (10 - count st)) "a"%char)
  /\ Z.of_nat (List.length (Text.content line)) <= 10 - Z.min (count st) 10
  /\ (Ascii.eqb "a" terminator = false -> fst (available f' st') = false)
  /\ cout st' = cout st.
Proof.
  rewrite readStringUntil_closed.
  destruct (Ascii.eqb "a" terminator); cbn [Text.content count cout List.length].
  - repeat split; [lia|discriminate].
  - rewrite length_replicate. repeat split; [lia|].
    intros _. unfold available. cbn [fst count].
    destruct (Z.ltb_spec (Z.max (count st) 10 + 1) 10); [lia|reflexivity].
Qed.

Lemma readStringUntil_reads_the_rest_witness :
  let st := snd (available mkFile (snd (available mkFile initial))) in
  let '(line, st') := readStringUntil mkFile ";"%char st in
  Ascii.eqb "a" ";" = false
  /\ Text.content line = lit "aaaaaaaa"
  /\ fst (available mkFile st') = false.
Proof.
  pose proof (readStringUntil_reads_the_rest mkFile mkFile ";"%char
                (snd (available mkFile (snd (available mkFile initial))))) as H.
  cbv zeta.
  destruct (readStringUntil mkFile ";"%char
              (snd (available mkFile (snd (available mkFile initial)))))
    as [line st'].
  destruct H as (Hc & _ & Hf & _).
  split; [reflexivity|]. split; [exact Hc|]. apply Hf. reflexivity.
Defined.

Lemma fs_step_count (c : fs_call) (st : State) : count st <= count (fs_step c st).
Proof.
  destruct c; cbn [fs_step]; try (simpl; lia).
  rewrite readStringUntil_closed.
  destruct (Ascii.eqb "a" terminator); simpl; lia.
Qed.

Lemma fs_run_count (cs : list fs_call) (st : State) : count st <= count (fs_run cs st).
Proof.
  revert st. induction cs as [|c cs IH]; intros st; [simpl; lia|].
  change (fs_run (c :: cs) st) with (fs_run cs (fs_step c st)).
  pose proof (fs_step_count c st). pose proof (IH (fs_step c st)). lia.
Qed.

(** X15. Once [available] has answered false it answers false for the
    rest of the process, on every handle and whatever is called in
    between (opening other files included): no call of the filesystem
    stubs gives the stream back. *)
Theorem available_false_forever
    (f f' : File) (st : State) (cs : list fs_call) :
  fst (available f st) = false ->
  fst (available f' (fs_run cs (snd (available f st)))) = false.
Proof.
  intros H.
  assert (H10 : 10 <= count st) by (apply Z.ltb_ge; exact H).
  pose proof (fs_run_count cs (snd (available f st))) as Hc.
  change (count (snd (available f st))) with (count st + 1) in Hc.
  change (fst (available f' (fs_run cs (snd (available f st)))))
    with (count (fs_run cs (snd (available f st))) <? 10).
  apply Z.ltb_ge. lia.
Qed.

Lemma available_false_forever_witness :
  let st := snd (readStringUntil mkFile ";"%char initial) in
  let cs := [fs_close mkFile; fs_begin true;
             fs_open (lit "/other.txt") (lit "r");
             fs_readStringUntil mkFile ";"%char] in
  fst (available mkFile st) = false
  /\ fst (available mkFile (fs_run cs (snd (available mkFile st)))) = false.
Proof.
  cbv zeta.
  assert (H : fst (available mkFile (snd (readStringUntil mkFile ";"%char initial)))
              = false) by reflexivity.
  split; [exact H|].
  exact (available_false_forever mkFile mkFile _
           [fs_close mkFile; fs_begin true;
            fs_open (lit "/other.txt") (lit "r");
            fs_readStringUntil mkFile ";"%char] H).
Defined.

End FilesystemMore.

(** ** The runner over any catalog *)

Section RunnerMore.

Import GTest.
Context {W : Type}.

Implicit Types (ts : list (TestInfo W)) (cs : list (invocation W)).

Lemma tests_register_all ts (r : TestRegistry W) :
  tests_ (register_all ts r) = tests_ r ++ ts.
Proof.
  revert r. induction ts as [|t ts IH]; intros r.
  - simpl. now rewrite app_nil_r.
  - change (register_all (t :: ts) r)
      with (register_all ts (register_test (name t) (func t) r)).
    rewrite IH. unfold register_test. cbn [tests_].
    rewrite <- app_assoc. now destruct t.
Qed.

Lemma thrown_count_bounds cs : 0 <= thrown_count cs <= Z.of_nat (List.length cs).
Proof.
  unfold thrown_count. pose proof (List.filter_length_le
    (fun c : invocation W => is_thrown (ended c)) cs). lia.
Qed.

Lemma thrown_count_zero cs :
  thrown_count cs = 0 <-> Forall (fun c => is_thrown (ended c) = false) cs.
Proof.
  induction cs as [|c cs IH].
  - split; [constructor|reflexivity].
  - rewrite thrown_count_cons. pose proof (thrown_count_bounds cs) as Hb.
    destruct (is_thrown (ended c)) eqn:E; split.
    + lia.
    + intros H. apply Forall_cons in H. destruct H as [H _]. congruence.
    + intros H. constructor; [assumption|]. apply IH. lia.
    + intros H. apply Forall_cons in H. destruct H as [_ H].
      apply IH in H. lia.
Qed.

(** A run that no body terminates goes through the whole catalog. *)
Lemma run_loop_clear ts : forall i (st : run_state W),
  clear_run ts (world st) = true ->
  exists st' cs,
    run_loop ts i st = Finished st'
    /\ calls st' = calls st ++ cs
    /\ in_order i (world st) ts cs
    /\ failures st' = failures st + thrown_count cs
    /\ world st' = state_after_all ts (world st).
Proof.
  induction ts as [|t ts IH]; intros i st Hclear.
  - exists st, []. simpl. rewrite app_nil_r, Z.add_0_r.
    repeat split. constructor.
  - cbn [clear_run] in Hclear. cbn [run_loop state_after_all fold_left].
    destruct (func t (world st)) as [w'|e w'|w'] eqn:E;
      cbn [is_aborted negb andb state_after] in Hclear; [| |discriminate].
    + destruct (IH (S i) (mkRun (failures st) (cout st ++ pass_line t)
                   (calls st ++ [mkInvocation i (world st) (Returned w')]) w')
                  Hclear)
        as (st' & cs & Hrun & Hcalls & Hord & Hfail & Hworld).
      cbn [calls world failures] in *.
      exists st', (mkInvocation i (world st) (Returned w') :: cs).
      rewrite thrown_count_cons. cbn [ended is_thrown].
      repeat split; try assumption.
      * now rewrite Hcalls, <- app_assoc.
      * rewrite <- E. constructor. now rewrite E.
    + destruct (IH (S i) (mkRun (failures st + 1) (cout st ++ fail_line t e)
                   (calls st ++ [mkInvocation i (world st) (Thrown e w')]) w')
                  Hclear)
        as (st' & cs & Hrun & Hcalls & Hord & Hfail & Hworld).
      cbn [calls world failures] in *.
      exists st', (mkInvocation i (world st) (Thrown e w') :: cs).
      rewrite thrown_count_cons. cbn [ended is_thrown].
      repeat split; try assumption.
      * now rewrite Hcalls, <- app_assoc.
      * rewrite <- E. constructor. now rewrite E.
      * lia.
Qed.

(** The loop over a catalog in two parts. *)
Lemma run_loop_app ts1 ts2 : forall i (st st1 : run_state W),
  run_loop ts1 i st = Finished st1 ->
  run_loop (ts1 ++ ts2) i st = run_loop ts2 (i + List.length ts1) st1.
Proof.
  induction ts1 as [|t ts1 IH]; intros i st st1 H.
  - injection H as <-. simpl. now rewrite Nat.add_0_r.
  - cbn [app run_loop List.length] in *.
    replace (i + S (List.length ts1))%nat with (S i + List.length ts1)%nat by lia.
    destruct (func t (world st)); [now apply IH|now apply IH|discriminate].
Qed.

(** Two bodies registered under one name, in a run that no body
    terminates: both entries are in the catalog and both bodies are
    invoked, each at its own position. *)
Lemma register_twice_runs_both
    (r : TestRegistry W) (name : std_string) (f1 f2 : body W)
    (out : std_string) (w : W) :
  let r' := register_test name f2 (register_test name f1 r) in
  let n := List.length (tests_ r) in
  let w1 := state_after_all (tests_ r) w in
  let w2 := state_after (f1 w1) in
  clear_run (tests_ r') w = true ->
  tests_ r' = tests_ r ++ [mkTestInfo name f1; mkTestInfo name f2]
  /\ exists st,
       run_all_tests r' out w = Finished st
       /\ in_order 0 w (tests_ r') (calls st)
       /\ map position (calls st) = seq 0 (n + 2)
       /\ calls st !! n = Some (mkInvocation n w1 (f1 w1))
       /\ calls st !! S n = Some (mkInvocation (S n) w2 (f2 w2)).
Proof.
  cbv zeta.
  assert (Htests : tests_ (register_test name f2 (register_test name f1 r)) =
                   tests_ r ++ [mkTestInfo name f1; mkTestInfo name f2]).
  { unfold register_test. cbn [tests_]. now rewrite <- app_assoc. }
  rewrite Htests. intros Hclear. split; [reflexivity|].
  unfold run_all_tests. rewrite Htests.
  destruct (run_loop_clear
              (tests_ r ++ [mkTestInfo name f1; mkTestInfo name f2])
              0 (mkRun 0 out [] w) Hclear)
    as (st & cs & Hrun & Hcalls & Hord & _ & _).
  cbn [calls world] in Hcalls, Hord. rewrite app_nil_l in Hcalls. subst cs.
  exists st. split; [exact Hrun|]. split; [exact Hord|]. split.
  - rewrite (in_order_positions _ _ _ _ Hord), length_app. reflexivity.
  - split.
    + rewrite (in_order_lookup _ _ _ _ (List.length (tests_ r))
                 (mkTestInfo name f1) Hord).
      * now rewrite take_app_length.
      * now rewrite list_lookup_middle.
    + rewrite (in_order_lookup _ _ _ _ (S (List.length (tests_ r)))
                 (mkTestInfo name f2) Hord).
      * change (tests_ r ++ [mkTestInfo name f1; mkTestInfo name f2])
          with (tests_ r ++ [mkTestInfo name f1] ++ [mkTestInfo name f2]).
        rewrite app_assoc.
        replace (S (List.length (tests_ r)))
          with (List.length (tests_ r ++ [mkTestInfo name f1]))
          by (rewrite length_app; simpl; lia).
        rewrite take_app_length, state_after_all_snoc. reflexivity.
      * change (tests_ r ++ [mkTestInfo name f1; mkTestInfo name f2])
          with (tests_ r ++ [mkTestInfo name f1] ++ [mkTestInfo name f2]).
        rewrite app_assoc. apply list_lookup_middle.
        rewrite length_app. simpl. lia.
Qed.

(** X16. A run in which no body terminates the process, that is in which
    no body does in the state in which the run invokes it: with the tests
    registered in the order [l], [run_all_tests] returns; it has invoked
    every body exactly once, in registration order, each in the state the
    previous one left, whether that one returned or threw; the count
    returned is the number of bodies that threw, between 0 and the number
    of tests, and it is 0 exactly when no body threw. *)
Theorem run_all_tests_counts_throws
    (l : list (TestInfo W)) (out : std_string) (w : W) :
  clear_run l w = true ->
  exists st,
    run_all_tests (register_all l (instance None)) out w = Finished st
    /\ in_order 0 w l (calls st)
    /\ world st = state_after_all l w
    /\ failures st = thrown_count (calls st)
    /\ 0 <= failures st <= Z.of_nat (List.length l)
    /\ (failures st = 0 <-> Forall (fun c => is_thrown (ended c) = false) (calls st)).
Proof.
  intros Hclear. unfold run_all_tests. rewrite tests_register_all.
  cbn [instance tests_ app].
  destruct (run_loop_clear l 0 (mkRun 0 out [] w) Hclear)
    as (st & cs & Hrun & Hcalls & Hord & Hfail & Hworld).
  cbn [calls world failures app] in *. subst cs.
  exists st. rewrite Hfail, Z.add_0_l.
  split; [exact Hrun|]. split; [exact Hord|]. split; [exact Hworld|].
  split; [reflexivity|]. split.
  - rewrite <- (in_order_length _ _ _ _ Hord). apply thrown_count_bounds.
  - apply thrown_count_zero.
Qed.

(** X18. A body that terminates the process ends the run: when no entry
    of [before] does in the state in which the run invokes it and the
    body of [t] does in the state they leave, [run_all_tests] does not
    return; the bodies of [before] have been invoked once each, in order,
    then that of [t], and none of [rest]. *)
Theorem run_all_tests_stops_at_abort
    (before rest : list (TestInfo W)) (t : TestInfo W)
    (out : std_string) (w w' : W) :
  clear_run before w = true ->
  func t (state_after_all before w) = Aborted w' ->
  exists st cs,
    run_all_tests (mkRegistry (before ++ t :: rest)) out w = Terminated st
    /\ calls st =
         cs ++ [mkInvocation (List.length before) (state_after_all before w)
                  (Aborted w')]
    /\ in_order 0 w before cs
    /\ List.length (calls st) = S (List.length before)
    /\ world st = w'.
Proof.
  intros Hclear Hab. unfold run_all_tests. cbn [tests_].
  destruct (run_loop_clear before 0 (mkRun 0 out [] w) Hclear)
    as (st1 & cs & Hrun & Hcalls & Hord & _ & Hworld).
  cbn [calls world app] in *. subst cs.
  rewrite (run_loop_app before (t :: rest) 0 _ st1 Hrun).
  cbn [run_loop Nat.add]. rewrite Hworld, Hab.
  eexists. exists (calls st1). split; [reflexivity|]. cbn [calls world].
  split; [reflexivity|]. split; [exact Hord|]. split; [|reflexivity].
  rewrite length_app, (in_order_length _ _ _ _ Hord). simpl. lia.
Qed.


End RunnerMore.

Section RunnerMoreSamples.

Import GTest Samples.

Lemma run_all_tests_counts_throws_witness :
  clear_run guarded_tests [] = true
  /\ exists st,
       run_all_tests (register_all guarded_tests (instance None)) [] []
         = Finished st
       /\ failures st = thrown_count (calls st)
       /\ world st = [ev_body 1].
Proof.
  assert (H : clear_run guarded_tests [] = true) by reflexivity.
  split; [exact H|].
  destruct (run_all_tests_counts_throws guarded_tests [] [] H)
    as (st & Hrun & _ & Hw & Hf & _).
  exists st. split; [exact Hrun|]. split; [exact Hf|exact Hw].
Defined.

(** The guarded test of the sample terminates the process in another
    state, and the run above still finishes with one failure. *)
Example guarded_test_aborts_elsewhere :
  (exists t, guarded_tests !! 1%nat = Some t /\ func t [] = Aborted [])
  /\ exists st,
       run_all_tests (mkRegistry guarded_tests) [] [] = Finished st
       /\ failures st = 1.
Proof.
  split; [eexists; split; reflexivity|].
  eexists. split; reflexivity.
Qed.

Lemma run_all_tests_stops_at_abort_witness :
  let t := mkTestInfo (lit "Suite.Fails")
             (seq_body (log (ev_body 1)) (ASSERT_EQ false 1 2)) in
  let before := tests_ throwing_then_passing in
  let rest := [mkTestInfo (lit "Suite.Never") (log (ev_body 9))] in
  clear_run before [] = true
  /\ func t (state_after_all before []) = Aborted [ev_body 1; ev_body 2; ev_body 1]
  /\ exists st cs,
       run_all_tests (mkRegistry (before ++ t :: rest)) [] [] = Terminated st
       /\ calls st =
            cs ++ [mkInvocation 2 [ev_body 1; ev_body 2]
                     (Aborted [ev_body 1; ev_body 2; ev_body 1])]
       /\ world st = [ev_body 1; ev_body 2; ev_body 1].
Proof.
  cbv zeta.
  assert (H0 : clear_run (tests_ throwing_then_passing) [] = true) by reflexivity.
  assert (H : func (mkTestInfo (lit "Suite.Fails")
                      (seq_body (log (ev_body 1)) (ASSERT_EQ false 1 2)))
                (state_after_all (tests_ throwing_then_passing) [])
              = Aborted [ev_body 1; ev_body 2; ev_body 1]) by reflexivity.
  split; [exact H0|]. split; [exact H|].
  destruct (run_all_tests_stops_at_abort (tests_ throwing_then_passing)
              [mkTestInfo (lit "Suite.Never") (log (ev_body 9))]
              _ [] [] _ H0 H)
    as (st & cs & Hrun & Hcalls & _ & _ & Hw).
  exists st, cs. split; [exact Hrun|]. split; [exact Hcalls|exact Hw].
Defined.


End RunnerMoreSamples.

(** ** Searching again from a match *)

Section SearchAgain.

Import Text.

(** X20. A search can be resumed at or before a match without losing it:
    when [indexOf(needle, fromIndex)] answers a position [p] other than
    -1, then for every start index [again] between [fromIndex] and [p],
    [p] included, [indexOf(needle, again)] answers [p] too (for a start
    index that is not negative and a text whose length fits an [int]). *)
Theorem indexOf_resumed (this str : String) (fromIndex again : Z) :
  0 <= fromIndex <= INT_MAX ->
  size (content this) <= INT_MAX ->
  indexOf this str fromIndex <> -1 ->
  fromIndex <= again <= indexOf this str fromIndex ->
  indexOf this str again = indexOf this str fromIndex.
Proof.
  intros Hfrom Hsz Hfound Hagain.
  pose proof (find_first_occurrence (content this) (content str) fromIndex
                ltac:(lia) Hsz) as Hp.
  pose proof (find_first_occurrence (content this) (content str) again
                ltac:(lia) Hsz) as Hq.
  unfold indexOf in *.
  rewrite (to_size_t_id fromIndex) in * by (unfold INT_MAX in Hfrom; lia).
  set (p := index_result (find (content this) (content str) fromIndex)) in *.
  destruct Hp as [[Hm _]|(Hge & Hocc & Hmin)]; [contradiction|].
  assert (Hpmax : p <= INT_MAX).
  { destruct Hocc as (_ & Hfit & _).
    pose proof (size_nonneg (content str)). lia. }
  rewrite (to_size_t_id again) in * by (unfold INT_MAX in *; lia).
  set (q := index_result (find (content this) (content str) again)) in *.
  destruct Hq as [[_ Hnone]|(Hge' & Hocc' & Hmin')].
  - exfalso. apply (Hnone p); [lia|exact Hocc].
  - destruct (Z.lt_trichotomy q p) as [Hlt|[Heq|Hgt]]; [|exact Heq|].
    + exfalso. apply (Hmin q); [lia|exact Hocc'].
    + exfalso. apply (Hmin' p); [lia|exact Hocc].
Qed.

Lemma indexOf_resumed_witness :
  let this := mkString (lit "a=1;b=2;c=3") in
  let str := mkString (lit ";") in
  0 <= 1 <= INT_MAX
  /\ size (content this) <= INT_MAX
  /\ indexOf this str 1 <> -1
  /\ 1 <= 3 <= indexOf this str 1
  /\ indexOf this str 3 = 3.
Proof.
  cbv zeta.
  assert (H1 : 0 <= 1 <= INT_MAX) by (vm_compute; split; discriminate).
  assert (H2 : size (content (mkString (lit "a=1;b=2;c=3"))) <= INT_MAX)
    by (vm_compute; discriminate).
  assert (H3 : indexOf (mkString (lit "a=1;b=2;c=3")) (mkString (lit ";")) 1 <> -1)
    by (vm_compute; discriminate).
  assert (H4 : 1 <= 3 <= indexOf (mkString (lit "a=1;b=2;c=3")) (mkString (lit ";")) 1)
    by (vm_compute; split; discriminate).
  repeat (split; [assumption|]).
  exact (indexOf_resumed _ _ 1 3 H1 H2 H3 H4).
Defined.

End SearchAgain.

(** ** The lines of the runner on the shared standard output *)

Section RunnerOutput.

Import GTest.
Context {U : Type}.

Implicit Types (ts : list (TestInfo (io U))) (cs : list (invocation (io U))).

Lemma line_of_Returned (t : TestInfo (io U)) (w : io U) :
  line_of t (Returned w) = pass_line t.
Proof. unfold line_of, pass_line. now rewrite <- app_assoc. Qed.

Lemma line_of_Thrown (t : TestInfo (io U)) (e : exception) (w : io U) :
  line_of t (Thrown e w) = fail_line t e.
Proof.
  unfold line_of, fail_line. destruct e; now rewrite <- !app_assoc.
Qed.

(** A run that no body terminates prints one line after each body. *)
Lemma run_loop_io_clear ts : forall i (st : run_state_io U),
  clear_run_io ts (world_io st) = true ->
  exists st' cs,
    run_loop_io ts i st = Finished_io st'
    /\ calls_io st' = calls_io st ++ cs
    /\ reported i (world_io st) ts cs (world_io st')
    /\ failures_io st' = failures_io st + thrown_count cs.
Proof.
  induction ts as [|t ts IH]; intros i st Hclear.
  - exists st, []. simpl. rewrite app_nil_r, Z.add_0_r.
    repeat split. constructor.
  - cbn [clear_run_io] in Hclear. cbn [run_loop_io].
    unfold after_report in Hclear.
    destruct (func t (world_io st)) as [w1|e w1|w1] eqn:E;
      cbn [is_aborted negb andb state_after] in Hclear; [| |discriminate].
    + rewrite line_of_Returned in Hclear.
      destruct (IH (S i) (mkRunIO (failures_io st)
                   (calls_io st ++ [mkInvocation i (world_io st) (Returned w1)])
                   (put (pass_line t) w1)) Hclear)
        as (st' & cs & Hrun & Hcalls & Hrep & Hfail).
      cbn [calls_io world_io failures_io] in *.
      exists st', (mkInvocation i (world_io st) (Returned w1) :: cs).
      rewrite thrown_count_cons. cbn [ended is_thrown].
      repeat split; try assumption.
      * now rewrite Hcalls, <- app_assoc.
      * rewrite <- E. constructor. unfold after_report.
        now rewrite E, line_of_Returned.
    + rewrite line_of_Thrown in Hclear.
      destruct (IH (S i) (mkRunIO (failures_io st + 1)
                   (calls_io st ++ [mkInvocation i (world_io st) (Thrown e w1)])
                   (put (fail_line t e) w1)) Hclear)
        as (st' & cs & Hrun & Hcalls & Hrep & Hfail).
      cbn [calls_io world_io failures_io] in *.
      exists st', (mkInvocation i (world_io st) (Thrown e w1) :: cs).
      rewrite thrown_count_cons. cbn [ended is_thrown].
      repeat split; try assumption.
      * now rewrite Hcalls, <- app_assoc.
      * rewrite <- E. constructor. unfold after_report.
        now rewrite E, line_of_Thrown.
      * lia.
Qed.

Lemma reported_quiet i (w w' : io U) ts cs :
  reported i w ts cs w' -> Forall quiet cs ->
  snd w' = snd w ++ lines_of ts cs.
Proof.
  induction 1 as [i w|i w w' t ts cs H IH]; intros Hq.
  - simpl. now rewrite app_nil_r.
  - apply Forall_cons in Hq. destruct Hq as [Hc Hcs].
    unfold quiet in Hc. cbn [ended started_in] in Hc.
    rewrite (IH Hcs). unfold after_report, put. cbn [snd lines_of ended].
    now rewrite Hc, <- app_assoc.
Qed.

(** X17. The lines of the runner, on the standard output that it shares
    with the bodies. In a run in which no body terminates the process
    [run_all_tests] returns, and every body has been invoked in the state
    the previous body left with exactly one line appended to the output
    and nothing else changed: the pass line with the name of the previous
    test when its body returned, the fail line with its name and message
    when it threw; the run ends in the state the last body left, with its
    line appended. The count returned is the number of bodies that threw.
    When no body of the run wrote to the output itself, the output of the
    run is these lines, one for each test in registration order. *)
Theorem run_all_tests_io_report (l : list (TestInfo (io U))) (w : io U) :
  clear_run_io l w = true ->
  exists st,
    run_all_tests_io (mkRegistry l) w = Finished_io st
    /\ reported 0 w l (calls_io st) (world_io st)
    /\ failures_io st = thrown_count (calls_io st)
    /\ (Forall quiet (calls_io st) ->
        snd (world_io st) = snd w ++ lines_of l (calls_io st)).
Proof.
  intros Hclear. unfold run_all_tests_io. cbn [tests_].
  destruct (run_loop_io_clear l 0 (mkRunIO 0 [] w) Hclear)
    as (st & cs & Hrun & Hcalls & Hrep & Hfail).
  cbn [calls_io world_io failures_io app] in *. subst cs.
  exists st. split; [exact Hrun|]. split; [exact Hrep|].
  split; [lia|]. intros Hq. now apply (reported_quiet 0).
Qed.

End RunnerOutput.

Section RunnerOutputSamples.

Import GTest Samples.

Lemma run_all_tests_io_report_witness :
  clear_run_io silent_tests ([], lit "boot;") = true
  /\ exists st,
       run_all_tests_io (mkRegistry silent_tests) ([], lit "boot;")
         = Finished_io st
       /\ Forall quiet (calls_io st)
       /\ failures_io st = 1
       /\ world_io st =
            ([ev_body 1],
             lit "boot;" ++ (lit "[ PASS ] Suite.Passes" ++ endl)
               ++ (lit "[ FAIL ] Suite.Throws: Unknown exception" ++ endl)).
Proof.
  assert (H : clear_run_io silent_tests ([], lit "boot;") = true) by reflexivity.
  split; [exact H|].
  destruct (run_all_tests_io_report silent_tests ([], lit "boot;") H)
    as (st & Hrun & _ & Hf & Hq).
  assert (Hquiet : Forall quiet (calls_io st)).
  { cbv in Hrun. injection Hrun as <-. repeat constructor. }
  exists st. split; [exact Hrun|]. split; [exact Hquiet|].
  specialize (Hq Hquiet).
  cbv in Hrun. injection Hrun as <-. split; reflexivity.
Defined.

(** A body that prints: its output and the line of the runner follow one
    another on the one stream. *)
Example run_all_tests_io_interleaved :
  exists st,
    run_all_tests_io (mkRegistry printing_tests) ([], []) = Finished_io st
    /\ snd (world_io st) =
         (lit "7" ++ endl) ++ (lit "[ PASS ] Suite.Prints" ++ endl)
           ++ (lit "[ FAIL ] Suite.Throws: boom" ++ endl)
    /\ failures_io st = 1.
Proof. eexists. split; [reflexivity|]. split; reflexivity. Qed.

End RunnerOutputSamples.
